(** * RxSocketClientSubject: a shallow embedding of
    [src/lib/rx-socket-client.subject.ts]

    The class [RxSocketClientSubject<T>] is a [Subject<T>] that owns a
    [WebSocketSubject], republishes what the socket delivers, publishes the
    connectivity on [_connectionStatus$] and rebuilds the socket from a
    timer when the connectivity turns false.

    The embedding has three layers:
    - [JS]: the JavaScript values the class handles, truthiness, property
      reads and exceptions;
    - [Rx]: what the class uses of RxJS ([Subject], [map], [filter],
      [catchError], [of], [distinctUntilChanged]) on the finite sequence
      of notifications a subscriber has received;
    - the class itself: its fields as a record, its methods as functions
      on that record, and the callbacks it registers as the transitions of
      an event-driven machine ([step], [run], [reachable]).

    Names follow the source; [$] is written [_dollar] and [this] is
    [this_]. *)

From Stdlib Require Import ZArith NArith List String Ascii Bool Lia.
From Stdlib Require Import DecimalString DecimalZ DecimalPos SpecFloat.
From Stdlib Require DecimalN DecimalFacts.
Import ListNotations.
Local Open Scope string_scope.

Set Implicit Arguments.
Set Warnings "-register-all".

(* ===================================================================== *)
(** * JavaScript values *)
(* ===================================================================== *)

Module JS.

(** The values that travel through the class. A number is [VNum] when it
    is an integer and [VDouble] when it is any other double (a fraction,
    an infinity, [NaN]). The raw binary types are those of the source's
    [WebSocketMessage]: a [Buffer] (what [Buffer.isBuffer] recognises), an
    [ArrayBuffer], a [Blob] with its [type], and an [ArrayBufferView] that
    is not a [Buffer], here a [Uint8Array]. [VErr] stands for an [Error]
    or an error [Event] and carries its name. Object fields are kept in an
    association list and read at the first match. *)
Inductive value : Type :=
| VUndefined
| VNull
| VBool (b : bool)
| VNum (n : Z)
| VDouble (x : spec_float)
| VStr (s : string)
| VBuffer (bytes : list Byte.byte)
| VErr (name : string)
| VArr (items : list value)
| VObj (fields : list (string * value))
| VArrayBuffer (bytes : list Byte.byte)
| VBlob (type : string) (bytes : list Byte.byte)
| VUint8Array (bytes : list Byte.byte).

(** A computation either returns or throws a value. *)
Inductive result (A : Type) : Type :=
| Ok (a : A)
| Throw (e : value).
Arguments Ok {A} a.
Arguments Throw {A} e.

Definition bind {A B} (c : result A) (k : A -> result B) : result B :=
  match c with
  | Ok a => k a
  | Throw e => Throw e
  end.

(** [try { c } catch (err) { h err }] *)
Definition try_catch {A} (c : result A) (h : value -> result A) : result A :=
  match c with
  | Ok a => Ok a
  | Throw e => h e
  end.

Declare Scope js_scope.
Delimit Scope js_scope with js.
Notation "x <- c ;; k" := (bind c (fun x => k))
  (at level 61, c at next level, right associativity) : js_scope.

Definition TypeError : value := VErr "TypeError".

(** JavaScript truthiness: [undefined], [null], [false], [0], [NaN] and
    the empty string are falsy, every other value is truthy. *)
Definition truthy (v : value) : bool :=
  match v with
  | VUndefined | VNull => false
  | VBool b => b
  | VNum n => negb (n =? 0)%Z
  | VDouble x =>
      match x with
      | S754_zero _ | S754_nan => false
      | _ => true
      end
  | VStr s => negb (s =? EmptyString)
  | VBuffer _ | VErr _ | VArr _ | VObj _
  | VArrayBuffer _ | VBlob _ _ | VUint8Array _ => true
  end.

Fixpoint lookup (k : string) (fields : list (string * value)) : value :=
  match fields with
  | [] => VUndefined
  | (k', v) :: rest => if k' =? k then v else lookup k rest
  end.

(** [message.k], for the keys the class reads ([type], [utf8Data],
    [binaryData], [event], [data]): reading a property of [undefined] or
    [null] throws a [TypeError]; an object yields the field or [undefined];
    a [Blob] has a [type]; no other value has one of these keys. *)
Definition get (message : value) (k : string) : result value :=
  match message with
  | VUndefined | VNull => Throw TypeError
  | VObj fields => Ok (lookup k fields)
  | VBlob type _ => Ok (if k =? "type" then VStr type else VUndefined)
  | _ => Ok VUndefined
  end.

(** [v === s] for a string literal or a string-typed variable [s]. *)
Definition is_string (v : value) (s : string) : bool :=
  match v with
  | VStr t => t =? s
  | _ => false
  end.

(** [typeof(data) === 'string'] *)
Definition typeof_string (data : value) : bool :=
  match data with
  | VStr _ => true
  | _ => false
  end.

(** [Buffer.isBuffer(data)] *)
Definition isBuffer (data : value) : bool :=
  match data with
  | VBuffer _ => true
  | _ => false
  end.

(** The JSON encoder and decoder of the platform, an interface the class
    consumes. [JSON_parse] throws on text that is not JSON. *)
Class JSON : Type := {
  JSON_parse : value -> result value;
  JSON_stringify : value -> value
}.


End JS.
Import JS.
Local Open Scope js_scope.

(* ===================================================================== *)
(** * What the class uses of RxJS *)
(* ===================================================================== *)

Module Rx.

(** What an observer can receive: [next(v)], [error(e)], [complete()]. *)
Inductive notification (A : Type) : Type :=
| Next (v : A)
| Error (e : value)
| Complete.
Arguments Next {A} v.
Arguments Error {A} e.
Arguments Complete {A}.

(** ** Subject *)

Inductive subject_state : Type :=
| Active
| Errored (e : value)
| Completed.

(** A [Subject] (RxJS 6) is hot and replays no value. It is described by
    - [emitted]: the values it has delivered, oldest first;
    - [stopped]: what the observers that were subscribed received at the
      first call of [error] or [complete] (that call empties the list of
      observers, so they receive nothing after it), [Active] before it;
      [isStopped] is [stopped <> Active];
    - [thrownError]: the fields [hasError] and [thrownError], the
      argument of the last call of [error] if there was one. *)
Record Subject (A : Type) : Type := mkSubject {
  emitted : list A;
  stopped : subject_state;
  thrownError : option value
}.

Definition new_Subject {A} : Subject A := mkSubject [] Active None.

(** [next(value)]: [if (!this.isStopped) { ...observers[i].next(value) }] *)
Definition Subject_next {A} (v : A) (sj : Subject A) : Subject A :=
  match stopped sj with
  | Active => mkSubject (emitted sj ++ [v]) Active (thrownError sj)
  | _ => sj
  end.

(** [error(err)]:
    [this.hasError = true; this.thrownError = err; this.isStopped = true;
     ...observers[i].error(err); this.observers.length = 0]
    There is no test of [isStopped]: on a stopped subject no observer is
    left to notify, and [thrownError] is replaced. *)
Definition Subject_error {A} (e : value) (sj : Subject A) : Subject A :=
  match stopped sj with
  | Active => mkSubject (emitted sj) (Errored e) (Some e)
  | _ => mkSubject (emitted sj) (stopped sj) (Some e)
  end.

(** [complete()]:
    [this.isStopped = true; ...observers[i].complete();
     this.observers.length = 0] *)
Definition Subject_complete {A} (sj : Subject A) : Subject A :=
  match stopped sj with
  | Active => mkSubject (emitted sj) Completed (thrownError sj)
  | _ => sj
  end.

Definition terminal {A} (st : subject_state) : list (notification A) :=
  match st with
  | Active => []
  | Errored e => [Error e]
  | Completed => [Complete]
  end.

(** What a subscriber has received when it subscribed, to a subject that
    had not stopped, after the subject had delivered [k] values: the later
    values, then the terminal notification if there is one. *)
Definition subscribe {A} (k : nat) (sj : Subject A) : list (notification A) :=
  List.map Next (skipn k (emitted sj)) ++ terminal (stopped sj).

(** What a subscriber receives, at once, when it subscribes to a subject
    that has stopped ([_subscribe]):
    [if (this.hasError) { subscriber.error(this.thrownError); }
     else if (this.isStopped) { subscriber.complete(); }] *)
Definition subscribe_stopped {A} (sj : Subject A) : list (notification A) :=
  match thrownError sj with
  | Some e => [Error e]
  | None =>
      match stopped sj with
      | Active => []
      | _ => [Complete]
      end
  end.

(** ** Operators, on what a subscriber receives *)

(** [map(project)]: a projection that throws turns into [error]. *)
Fixpoint map {A B} (project : A -> result B) (src : list (notification A))
  : list (notification B) :=
  match src with
  | [] => []
  | Next v :: rest =>
      match project v with
      | Ok w => Next w :: map project rest
      | Throw e => [Error e]
      end
  | Error e :: _ => [Error e]
  | Complete :: _ => [Complete]
  end.

(** [filter(predicate)] *)
Fixpoint filter {A} (predicate : A -> result bool) (src : list (notification A))
  : list (notification A) :=
  match src with
  | [] => []
  | Next v :: rest =>
      match predicate v with
      | Ok true => Next v :: filter predicate rest
      | Ok false => filter predicate rest
      | Throw e => [Error e]
      end
  | Error e :: _ => [Error e]
  | Complete :: _ => [Complete]
  end.

(** [of(v)] delivers [v] and completes. *)
Definition of_ {A} (v : A) : list (notification A) := [Next v; Complete].

(** [catchError(selector)]: on [error(e)] the subscriber is moved to the
    observable [selector e]. *)
Fixpoint catchError {A} (selector : value -> list (notification A))
  (src : list (notification A)) : list (notification A) :=
  match src with
  | [] => []
  | Next v :: rest => Next v :: catchError selector rest
  | Error e :: _ => selector e
  | Complete :: _ => [Complete]
  end.

(** [distinctUntilChanged()] on booleans, from the key kept so far: a value
    equal to the key is dropped, any other is delivered and becomes the
    key. *)
Definition same_key (key : option bool) (b : bool) : bool :=
  match key with
  | Some k => Bool.eqb k b
  | None => false
  end.

Fixpoint distinct_from (key : option bool) (src : list (notification bool))
  : list (notification bool) :=
  match src with
  | [] => []
  | Next b :: rest =>
      if same_key key b then distinct_from key rest
      else Next b :: distinct_from (Some b) rest
  | Error e :: _ => [Error e]
  | Complete :: _ => [Complete]
  end.

Definition distinctUntilChanged (src : list (notification bool))
  : list (notification bool) :=
  distinct_from None src.

(** The values among the notifications. *)
Fixpoint values {A} (src : list (notification A)) : list A :=
  match src with
  | [] => []
  | Next v :: rest => v :: values rest
  | _ :: rest => values rest
  end.

End Rx.
Import Rx.

(* ===================================================================== *)
(** * The message codec *)
(* ===================================================================== *)

Section Codec.

Context {J : JSON}.

(** A [MessageEvent], of which the class reads [data]. *)
Record MessageEvent : Type := mkMessageEvent { data : value }.

(** [_deserializer(e)]:
    [try { return JSON.parse(e.data); } catch (err) { return e.data; }] *)
Definition _deserializer (e : MessageEvent) : result value :=
  try_catch (JSON_parse (data e)) (fun _ => Ok (data e)).

(** [_serializer(data)]:
    [typeof(data) === 'string' || Buffer.isBuffer(data) ? data : JSON.stringify(data)] *)
Definition _serializer (data : value) : value :=
  if typeof_string data || isBuffer data then data else JSON_stringify data.

End Codec.

(* ===================================================================== *)
(** * The derived views of the stream *)
(* ===================================================================== *)

(** The first projection of [_message$]:
    [(message.type && message.type === 'utf8' && message.utf8Data) ?
        message.utf8Data : message] *)
Definition unwrap_utf8 (message : value) : result value :=
  type <- get message "type" ;;
  if truthy type && is_string type "utf8" then
    utf8Data <- get message "utf8Data" ;;
    Ok (if truthy utf8Data then utf8Data else message)
  else Ok message.

(** The predicate of [_message$]:
    [message.event && message.event !== 'error' && message.event !== 'close'
     && message.event === event && message.data] *)
Definition event_filter (event : string) (message : value) : result bool :=
  ev <- get message "event" ;;
  if truthy ev && negb (is_string ev "error") && negb (is_string ev "close")
     && is_string ev event then
    d <- get message "data" ;;
    Ok (truthy d)
  else Ok false.

(** [_message$(event)], on what a subscriber of the subject receives. *)
Definition _message_dollar (event : string) (src : list (notification value))
  : list (notification value) :=
  Rx.filter (event_filter event) (Rx.map unwrap_utf8 src).

(** [on$(event)]: [_message$(event).pipe(map(_ => _.data))] *)
Definition on_dollar (event : string) (src : list (notification value))
  : list (notification value) :=
  Rx.map (fun m => get m "data") (_message_dollar event src).

(** One call of the callback given to [on]: [cb(message.data)] from its
    first handler, [cb(error)] from its second, [cb()] from its third. *)
Inductive cb_call : Type :=
| cb_data (d : value)
| cb_error (e : value)
| cb_void.

(** The three handlers [on(event, cb)] subscribes to [_message$(event)]. *)
Definition on_handler (event : string) (n : notification value) : list cb_call :=
  match n with
  | Next message =>
      match get message "data" with
      | Ok d => [cb_data d]
      | Throw _ => []
      end
  | Error e => if event =? "error" then [cb_error e] else []
  | Complete => if event =? "close" then [cb_void] else []
  end.

(** [on(event, cb)]: the calls of [cb], in order. *)
Definition on (event : string) (src : list (notification value)) : list cb_call :=
  flat_map (on_handler event) (_message_dollar event src).

(** [onError$()]: [this.pipe(catchError(_ => of(_)))] *)
Definition onError_dollar (src : list (notification value))
  : list (notification value) :=
  Rx.catchError (fun e => of_ e) src.

(** [onClose$()]: one [next()] and [complete()] when the subject completes. *)
Definition onClose_dollar (src : list (notification value))
  : list (notification unit) :=
  flat_map (fun n => match n with
                     | Complete => [Next tt; Complete]
                     | _ => []
                     end) src.

(** The projection of [onBytes$]:
    [(message.type && message.type === 'binary' && message.binaryData) ?
        message.binaryData : message] *)
Definition unwrap_binary (message : value) : result value :=
  type <- get message "type" ;;
  if truthy type && is_string type "binary" then
    binaryData <- get message "binaryData" ;;
    Ok (if truthy binaryData then binaryData else message)
  else Ok message.

Definition onBytes_dollar (src : list (notification value))
  : list (notification value) :=
  Rx.map unwrap_binary src.

(* ===================================================================== *)
(** * The class *)
(* ===================================================================== *)

(** [RxSocketClientConfig]; an absent optional field is [None]. The
    [WebSocketCtor] override only selects the transport implementation and
    is left out. *)
Record RxSocketClientConfig : Type := mkConfig {
  url : string;
  protocol : option value;
  binaryType : option value;
  reconnectInterval : option Z;
  reconnectAttempts : option Z
}.

(** The constructor's parameter, [string | RxSocketClientConfig]. *)
Inductive urlConfigOrSource : Type :=
| Url (u : string)
| Config (c : RxSocketClientConfig).

(** [(<RxSocketClientConfig> urlConfigOrSource).field]: a string has none of
    the fields. *)
Definition field_of {A} (f : RxSocketClientConfig -> option A)
  (a : urlConfigOrSource) : option A :=
  match a with
  | Url _ => None
  | Config c => f c
  end.

Definition number (o : option Z) : value :=
  match o with
  | Some n => VNum n
  | None => VUndefined
  end.

Definition optional (o : option value) : value :=
  match o with
  | Some v => v
  | None => VUndefined
  end.

(** What the constructor puts in [_wsSubjectConfig] besides the codec and
    the two observers, which are the definitions below. *)
Record WebSocketSubjectConfig : Type := mkWsConfig {
  ws_url : string;
  ws_protocol : option value;
  ws_binaryType : option value
}.

(** The objects the class creates and holds by reference. A
    [WebSocketSubject] and the subscription to it are named by the number
    of the socket, an interval subscription by the number of the timer.
    - [fresh]: the next unused number;
    - [created]: the sockets constructed so far, oldest first;
    - [subscribed]: the sockets whose subscription is still open;
    - [intervals]: the interval subscriptions still running, each with the
      index its [takeWhile] gives to the next tick;
    - [outbox]: the data handed to a socket by [next], oldest first. *)
Record Runtime : Type := mkRuntime {
  fresh : nat;
  created : list nat;
  subscribed : list nat;
  intervals : list (nat * nat);
  outbox : list (nat * value)
}.

(** The fields of the class. [this_] is the [Subject<T>] the class extends;
    [status_key] is the key of the [distinctUntilChanged] in the
    subscription the constructor makes to [connectionStatus$]. *)
Record RxSocketClientSubject : Type := mkClient {
  this_ : Subject value;
  _reconnectionObservable : option nat;
  _wsSubjectConfig : WebSocketSubjectConfig;
  _socket : option nat;
  _connectionStatus_dollar : Subject bool;
  _socketSubscription : option nat;
  _reconnectionSubscription : option nat;
  _reconnectInterval : Z;
  _reconnectAttempts : Z;
  status_key : option bool;
  runtime : Runtime
}.

Definition client : Type := RxSocketClientSubject.

(** ** Field updates *)

Definition set_this (f : Subject value -> Subject value) (c : client) : client :=
  mkClient (f (this_ c)) (_reconnectionObservable c) (_wsSubjectConfig c)
    (_socket c) (_connectionStatus_dollar c) (_socketSubscription c)
    (_reconnectionSubscription c) (_reconnectInterval c) (_reconnectAttempts c)
    (status_key c) (runtime c).

Definition set_reconnectionObservable (o : option nat) (c : client) : client :=
  mkClient (this_ c) o (_wsSubjectConfig c)
    (_socket c) (_connectionStatus_dollar c) (_socketSubscription c)
    (_reconnectionSubscription c) (_reconnectInterval c) (_reconnectAttempts c)
    (status_key c) (runtime c).

Definition set_socket (o : option nat) (c : client) : client :=
  mkClient (this_ c) (_reconnectionObservable c) (_wsSubjectConfig c)
    o (_connectionStatus_dollar c) (_socketSubscription c)
    (_reconnectionSubscription c) (_reconnectInterval c) (_reconnectAttempts c)
    (status_key c) (runtime c).

Definition set_connectionStatus (f : Subject bool -> Subject bool) (c : client)
  : client :=
  mkClient (this_ c) (_reconnectionObservable c) (_wsSubjectConfig c)
    (_socket c) (f (_connectionStatus_dollar c)) (_socketSubscription c)
    (_reconnectionSubscription c) (_reconnectInterval c) (_reconnectAttempts c)
    (status_key c) (runtime c).

Definition set_socketSubscription (o : option nat) (c : client) : client :=
  mkClient (this_ c) (_reconnectionObservable c) (_wsSubjectConfig c)
    (_socket c) (_connectionStatus_dollar c) o
    (_reconnectionSubscription c) (_reconnectInterval c) (_reconnectAttempts c)
    (status_key c) (runtime c).

Definition set_reconnectionSubscription (o : option nat) (c : client) : client :=
  mkClient (this_ c) (_reconnectionObservable c) (_wsSubjectConfig c)
    (_socket c) (_connectionStatus_dollar c) (_socketSubscription c)
    o (_reconnectInterval c) (_reconnectAttempts c)
    (status_key c) (runtime c).

Definition set_status_key (k : option bool) (c : client) : client :=
  mkClient (this_ c) (_reconnectionObservable c) (_wsSubjectConfig c)
    (_socket c) (_connectionStatus_dollar c) (_socketSubscription c)
    (_reconnectionSubscription c) (_reconnectInterval c) (_reconnectAttempts c)
    k (runtime c).

Definition set_runtime (f : Runtime -> Runtime) (c : client) : client :=
  mkClient (this_ c) (_reconnectionObservable c) (_wsSubjectConfig c)
    (_socket c) (_connectionStatus_dollar c) (_socketSubscription c)
    (_reconnectionSubscription c) (_reconnectInterval c) (_reconnectAttempts c)
    (status_key c) (f (runtime c)).

(** ** The runtime objects *)

(** [new WebSocketSubject(config)] followed by [subscribe]: a fresh socket
    with an open subscription. *)
Definition new_socket (r : Runtime) : Runtime :=
  mkRuntime (S (fresh r)) (created r ++ [fresh r]) (fresh r :: subscribed r)
    (intervals r) (outbox r).

(** [interval(period).pipe(takeWhile(...))] followed by [subscribe]: a
    fresh running timer whose next tick has index 0. *)
Definition new_interval (r : Runtime) : Runtime :=
  mkRuntime (S (fresh r)) (created r) (subscribed r)
    ((fresh r, 0) :: intervals r) (outbox r).

(** [subscription.unsubscribe()] on the subscription to socket [k]. *)
Definition unsubscribe_socket (k : nat) (r : Runtime) : Runtime :=
  mkRuntime (fresh r) (created r)
    (List.filter (fun j => negb (j =? k)%nat) (subscribed r))
    (intervals r) (outbox r).

(** [subscription.unsubscribe()] on the interval subscription [t]. *)
Definition unsubscribe_interval (t : nat) (r : Runtime) : Runtime :=
  mkRuntime (fresh r) (created r) (subscribed r)
    (List.filter (fun p => negb (fst p =? t)%nat) (intervals r)) (outbox r).

(** The index of the next tick of timer [t], if [t] is running. *)
Fixpoint tick_index (t : nat) (l : list (nat * nat)) : option nat :=
  match l with
  | [] => None
  | (t', i) :: rest => if (t' =? t)%nat then Some i else tick_index t rest
  end.

(** Timer [t] has delivered one more tick. *)
Definition advance (t : nat) (r : Runtime) : Runtime :=
  mkRuntime (fresh r) (created r) (subscribed r)
    (List.map (fun p => if (fst p =? t)%nat then (fst p, S (snd p)) else p) (intervals r))
    (outbox r).

(** [socket.next(data)] on socket [k]. *)
Definition socket_next (k : nat) (d : value) (r : Runtime) : Runtime :=
  mkRuntime (fresh r) (created r) (subscribed r) (intervals r)
    (outbox r ++ [(k, d)]).

Definition is_none {A} (o : option A) : bool :=
  match o with
  | None => true
  | Some _ => false
  end.

(** ** The methods and the callbacks *)

(** [_cleanSocket()] *)
Definition _cleanSocket (c : client) : client :=
  let c :=
    match _socketSubscription c with
    | Some k => set_runtime (unsubscribe_socket k) c
    | None => c
    end in
  set_socket None c.

(** [_cleanReconnection()] *)
Definition _cleanReconnection (c : client) : client :=
  let c :=
    match _reconnectionSubscription c with
    | Some t => set_runtime (unsubscribe_interval t) c
    | None => c
    end in
  set_reconnectionObservable None c.

(** [_connect()]: the socket is created and subscribed with the two
    callbacks [socket_message] and [socket_error] below. *)
Definition _connect (c : client) : client :=
  let k := fresh (runtime c) in
  set_socketSubscription (Some k) (set_socket (Some k) (set_runtime new_socket c)).

(** [_reconnect()]: the timer is created and subscribed with the two
    callbacks [reconnection_tick] and [reconnection_complete] below. *)
Definition _reconnect (c : client) : client :=
  let t := fresh (runtime c) in
  set_reconnectionSubscription (Some t)
    (set_reconnectionObservable (Some t) (set_runtime new_interval c)).

(** The first callback of [_connect]: [(m) => { this.next(m); }] *)
Definition socket_message (m : value) (c : client) : client :=
  set_this (Subject_next m) c.

(** The second callback of [_connect]:
    [if (!this._socket) { this._cleanReconnection(); this._reconnect(); }
     else { this.error(error); }] *)
Definition socket_error (error : value) (c : client) : client :=
  if is_none (_socket c) then _reconnect (_cleanReconnection c)
  else set_this (Subject_error error) c.

(** The subscriber the constructor gives to [connectionStatus$]:
    [if (!this._reconnectionObservable && typeof(isConnected) === 'boolean'
         && !isConnected) { this._reconnect(); }] *)
Definition status_subscriber (isConnected : bool) (c : client) : client :=
  if is_none (_reconnectionObservable c) && negb isConnected then _reconnect c
  else c.

(** [this._connectionStatus$.next(b)]: nothing on a stopped subject;
    otherwise the value is delivered, and it reaches the constructor's
    subscriber through its [distinctUntilChanged]. *)
Definition connectionStatus_next (b : bool) (c : client) : client :=
  match stopped (_connectionStatus_dollar c) with
  | Active =>
      let c := set_connectionStatus (Subject_next b) c in
      if same_key (status_key c) b then c
      else status_subscriber b (set_status_key (Some b) c)
  | _ => c
  end.

(** [openObserver.next]: [this._connectionStatus$.next(true)] *)
Definition openObserver (c : client) : client :=
  connectionStatus_next true c.

(** [closeObserver.next]:
    [this._cleanSocket(); this._connectionStatus$.next(false)] *)
Definition closeObserver (c : client) : client :=
  connectionStatus_next false (_cleanSocket c).

(** The predicate of the [takeWhile] in [_reconnect]:
    [index < this._reconnectAttempts && !this._socket] *)
Definition reconnection_continues (index : nat) (c : client) : bool :=
  (Z.of_nat index <? _reconnectAttempts c)%Z && is_none (_socket c).

(** The first callback of [_reconnect]: [() => this._connect()] *)
Definition reconnection_tick (c : client) : client :=
  _connect c.

(** The third callback of [_reconnect]:
    [this._cleanReconnection();
     if (!this._socket) { this.complete(); this._connectionStatus$.complete(); }] *)
Definition reconnection_complete (c : client) : client :=
  let c := _cleanReconnection c in
  if is_none (_socket c) then
    set_connectionStatus Subject_complete (set_this Subject_complete c)
  else c.

(** [send(data)]: [this._socket.next(data)], a [TypeError] when [_socket]
    is [undefined]. *)
Definition send (d : value) (c : client) : result client :=
  match _socket c with
  | Some k => Ok (set_runtime (socket_next k d) c)
  | None => Throw TypeError
  end.

(** [emit(event, data)]: [this.send({ event, data })] *)
Definition emit (event : string) (d : value) (c : client) : result client :=
  send (VObj [("event", VStr event); ("data", d)]) c.

(** The constructor. *)
Definition constructor (a : urlConfigOrSource) : client :=
  let interval :=
    if truthy (number (field_of reconnectInterval a))
    then match field_of reconnectInterval a with Some n => n | None => 0%Z end
    else 5000%Z in
  let attempts :=
    if truthy (number (field_of reconnectAttempts a))
    then match field_of reconnectAttempts a with Some n => n | None => 0%Z end
    else 10%Z in
  let u := match a with Url u => u | Config c => url c end in
  let config :=
    mkWsConfig u
      (if truthy (optional (field_of protocol a)) then field_of protocol a else None)
      (if truthy (optional (field_of binaryType a)) then field_of binaryType a else None) in
  _connect
    (mkClient new_Subject None config None new_Subject None None
       interval attempts None (mkRuntime 0 [] [] [] [])).

(** [connectionStatus$], for a subscriber that came when
    [_connectionStatus$] had delivered [k] values:
    [this._connectionStatus$.pipe(distinctUntilChanged())] *)
Definition connectionStatus_dollar (k : nat) (c : client)
  : list (notification bool) :=
  distinctUntilChanged (subscribe k (_connectionStatus_dollar c)).

(** ** The machine *)

(** What happens to a channel: the notifications of the transport, the
    ticks of a timer, and the calls of [send]. *)
Inductive action : Type :=
| Opened
| Closed
| Received (k : nat) (m : value)
| Failed (k : nat) (error : value)
| Tick (t : nat)
| Send (d : value).

Definition mem (k : nat) (l : list nat) : bool :=
  existsb (Nat.eqb k) l.

(** One action. A closed subscription delivers nothing; a subscription
    that delivers [error] is closed by it; a [takeWhile] whose predicate
    fails unsubscribes from the timer and completes; a [send] that throws
    leaves the channel as it was. *)
Definition step (a : action) (c : client) : client :=
  match a with
  | Opened => openObserver c
  | Closed => closeObserver c
  | Received k m =>
      if mem k (subscribed (runtime c)) then socket_message m c else c
  | Failed k error =>
      if mem k (subscribed (runtime c))
      then socket_error error (set_runtime (unsubscribe_socket k) c)
      else c
  | Tick t =>
      match tick_index t (intervals (runtime c)) with
      | Some index =>
          if reconnection_continues index c
          then reconnection_tick (set_runtime (advance t) c)
          else reconnection_complete (set_runtime (unsubscribe_interval t) c)
      | None => c
      end
  | Send d =>
      match send d c with
      | Ok c' => c'
      | Throw _ => c
      end
  end.

Definition run (l : list action) (c : client) : client :=
  fold_left (fun c a => step a c) l c.

(** The states a channel can be in. *)
Inductive reachable : client -> Prop :=
| reachable_constructor a : reachable (constructor a)
| reachable_step a c : reachable c -> reachable (step a c).

(* ===================================================================== *)
(** * The JSON of the platform *)
(* ===================================================================== *)

(** [JSON.stringify] and [JSON.parse] of ECMAScript on the values of the
    model, an instance of the [JSON] interface. The theorems on the class
    hold for every instance; this one is what the class meets at run
    time, it lets the theorems be run, and it decodes what it encodes.
    A number is a double: the integers are kept in [VNum], every other
    double in [VDouble]. A string is kept as the bytes of its UTF-8
    encoding; a code unit that is half of a pair is kept as the three
    bytes of its code and printed as they are. The names of an object
    come in the order of its own keys: the array indices first,
    ascending, then the other names as they were defined. *)
Module RefJSON.

(** ** Numbers *)

(** A JavaScript number is a double: [prec] and [emax] are those of
    binary64. *)
Definition prec : Z := 53.
Definition emax : Z := 1024.

(** The double nearest to the integer [n]. *)
Definition double_of_Z (n : Z) : spec_float :=
  binary_normalize prec emax n 0 false.

Definition decimal (n : N) : string := NilEmpty.string_of_uint (N.to_uint n).

(** The double [x] with the sign of a negative number if [negative]. *)
Definition with_sign (negative : bool) (x : spec_float) : spec_float :=
  match x with
  | S754_finite _ m e => S754_finite negative m e
  | S754_infinity _ => S754_infinity negative
  | S754_zero _ => S754_zero negative
  | S754_nan => S754_nan
  end.

(** The double nearest to [m * 10 ^ e], negated if [negative]: what the
    platform makes of a decimal literal. Beyond the range of the doubles
    the result is known without the power. *)
Definition double_of_decimal (negative : bool) (m : N) (e : Z) : spec_float :=
  match m with
  | N0 => S754_zero negative
  | Npos p =>
      let digits := Z.of_nat (String.length (decimal m)) in
      if (310 <? digits + e)%Z then S754_infinity negative
      else if (digits + e <? -330)%Z then S754_zero negative
      else
        match e with
        | Z0 => with_sign negative (binary_normalize prec emax (Z.pos p) 0 false)
        | Zpos k =>
            with_sign negative
              (binary_normalize prec emax (Z.pos p * 10 ^ Z.pos k)%Z 0 false)
        | Zneg k =>
            SFdiv prec emax (S754_finite negative p 0)
              (S754_finite false (10 ^ k) 0)
        end
  end.

(** The integer a double is, if it is one. *)
Definition integer_of_double (x : spec_float) : option Z :=
  match x with
  | S754_zero _ => Some 0%Z
  | S754_finite s m e =>
      let sign := if s then (-1)%Z else 1%Z in
      match e with
      | Z0 => Some (sign * Z.pos m)%Z
      | Zpos k => Some (sign * (Z.pos m * 2 ^ Z.pos k))%Z
      | Zneg k =>
          if (Z.pos m mod 2 ^ Z.pos k =? 0)%Z
          then Some (sign * (Z.pos m / 2 ^ Z.pos k))%Z
          else None
      end
  | _ => None
  end.

(** A double as a value: [VNum] when it is an integer. *)
Definition number_of_double (x : spec_float) : value :=
  match integer_of_double x with
  | Some n => VNum n
  | None => VDouble x
  end.

(** The integers every double holds exactly. *)
Definition safe (n : Z) : bool := (Z.abs n <=? 2 ^ 53)%Z.

(** [Number::toString] on a positive finite double [m * 2 ^ e]: the
    digits [s] and the exponent [n] with [s * 10 ^ (n - k)] the decimal
    of fewest digits [k] that the platform reads back as the same double,
    the nearest to it if there are several. The rational
    [num / den] is the double. *)
Definition ratio (m : positive) (e : Z) : Z * Z :=
  match e with
  | Z0 => (Z.pos m, 1%Z)
  | Zpos k => (Z.pos m * 2 ^ Z.pos k, 1)%Z
  | Zneg k => (Z.pos m, 2 ^ Z.pos k)%Z
  end.

(** The least [j] from [j0] on with [den <= num * 10 ^ j], within the fuel. *)
Fixpoint first_digit_place (fuel : nat) (num den : Z) (j : Z) : Z :=
  match fuel with
  | O => j
  | S fuel =>
      if (den <=? num * 10 ^ j)%Z then j
      else first_digit_place fuel num den (j + 1)%Z
  end.

(** The [n] with [10 ^ (n - 1) <= num / den < 10 ^ n]. *)
Definition magnitude (num den : Z) : Z :=
  if (den <=? num)%Z
  then Z.of_nat (String.length (decimal (Z.to_N (num / den))))
  else (1 - first_digit_place 400 num den 1)%Z.

(** [s * 10 ^ p] read back as a double. *)
Definition read_back (s p : Z) : spec_float :=
  double_of_decimal false (Z.to_N s) p.

Definition same_double (x y : spec_float) : bool :=
  match x, y with
  | S754_finite _ m e, S754_finite _ m' e' => Pos.eqb m m' && Z.eqb e e'
  | _, _ => false
  end.

(** With [k] digits: the candidate, if one reads back as the double. *)
Definition candidate (x : spec_float) (num den n : Z) (k : nat)
  : option (Z * Z) :=
  let p := (n - Z.of_nat k)%Z in
  let num' := match p with Zneg q => (num * 10 ^ Z.pos q)%Z | _ => num end in
  let den' := match p with Zpos q => (den * 10 ^ Z.pos q)%Z | _ => den end in
  let lo := (num' / den')%Z in
  let r := (num' mod den')%Z in
  let hi := (lo + 1)%Z in
  let lo_ok := same_double (read_back lo p) x in
  let hi_ok := same_double (read_back hi p) x in
  if (r =? 0)%Z then Some (lo, p)
  else if lo_ok && hi_ok then
    match (2 * r ?= den')%Z with
    | Lt => Some (lo, p)
    | Gt => Some (hi, p)
    | Eq => if Z.even lo then Some (lo, p) else Some (hi, p)
    end
  else if lo_ok then Some (lo, p)
  else if hi_ok then Some (hi, p)
  else None.

Fixpoint shortest (fuel : nat) (x : spec_float) (num den n : Z) (k : nat)
  : Z * Z :=
  match fuel with
  | O => (0%Z, 0%Z)
  | S fuel =>
      match candidate x num den n k with
      | Some c => c
      | None => shortest fuel x num den n (S k)
      end
  end.

(** The digits without the zeros at their end, and the zeros. *)
Fixpoint strip_zeros (fuel : nat) (s : Z) (z : Z) : Z * Z :=
  match fuel with
  | O => (s, z)
  | S fuel =>
      if (s mod 10 =? 0)%Z then strip_zeros fuel (s / 10)%Z (z + 1)%Z
      else (s, z)
  end.

Fixpoint zeros (n : nat) : string :=
  match n with
  | O => EmptyString
  | S n => String "0" (zeros n)
  end.

(** The text of the number of digits [d] ([k] of them) and exponent [n]. *)
Definition layout (d : string) (n : Z) : string :=
  let k := Z.of_nat (String.length d) in
  if ((k <=? n) && (n <=? 21))%Z then d ++ zeros (Z.to_nat (n - k))
  else if ((0 <? n) && (n <=? 21))%Z then
    substring 0 (Z.to_nat n) d ++ "." ++
    substring (Z.to_nat n) (String.length d - Z.to_nat n) d
  else if ((-6 <? n) && (n <=? 0))%Z then
    "0." ++ zeros (Z.to_nat (- n)) ++ d
  else
    let e := (n - 1)%Z in
    let exponent :=
      (if (0 <=? e)%Z then "e+" else "e-") ++ decimal (Z.to_N (Z.abs e)) in
    match d with
    | String c EmptyString => d ++ exponent
    | String c rest => String c ("." ++ rest) ++ exponent
    | EmptyString => exponent
    end.

(** [Number::toString] *)
Definition Number_toString (x : spec_float) : string :=
  match x with
  | S754_nan => "NaN"
  | S754_infinity s => if s then "-Infinity" else "Infinity"
  | S754_zero _ => "0"
  | S754_finite s m e =>
      let (num, den) := ratio m e in
      let n := magnitude num den in
      let (digits, p) := shortest 17 x num den n 1 in
      let (d, z) := strip_zeros 400 digits 0 in
      let text := decimal (Z.to_N d) in
      (if s then "-" else "") ++
      layout text (Z.of_nat (String.length text) + z + p)
  end.

(** The text of an integral number. *)
Definition integer_text (n : Z) : string :=
  if safe n then NilZero.string_of_int (Z.to_int n)
  else Number_toString (double_of_Z n).


(** ** Strings *)

Definition dquote : ascii := ascii_of_nat 34.
Definition backslash : ascii := ascii_of_nat 92.

Definition hex_digit (n : N) : ascii :=
  ascii_of_N (if n <? 10 then 48 + n else 87 + n)%N.

(** [QuoteJSONString], one character: the two-character escapes, the
    other control characters as [\u00xx], every other character as it
    is. *)
Definition escape_char (c : ascii) : string :=
  let n := N_of_ascii c in
  if Ascii.eqb c dquote || Ascii.eqb c backslash
  then String backslash (String c EmptyString)
  else if (n =? 8)%N then String backslash "b"
  else if (n =? 9)%N then String backslash "t"
  else if (n =? 10)%N then String backslash "n"
  else if (n =? 12)%N then String backslash "f"
  else if (n =? 13)%N then String backslash "r"
  else if (n <? 32)%N then
    String backslash
      (String "u" (String "0" (String "0"
         (String (hex_digit (n / 16)%N) (String (hex_digit (n mod 16)%N) EmptyString)))))
  else String c EmptyString.

Fixpoint escape (s : string) : string :=
  match s with
  | EmptyString => EmptyString
  | String c r => escape_char c ++ escape r
  end.

Definition quote (s : string) : string :=
  String dquote (escape s ++ String dquote EmptyString).

Definition hex_value (c : ascii) : option N :=
  let n := N_of_ascii c in
  if (48 <=? n)%N && (n <=? 57)%N then Some (n - 48)%N
  else if (97 <=? n)%N && (n <=? 102)%N then Some (n - 87)%N
  else if (65 <=? n)%N && (n <=? 70)%N then Some (n - 55)%N
  else None.

(** The code unit of [\uXXXX]. *)
Definition code_unit (h1 h2 h3 h4 : ascii) : option N :=
  match hex_value h1, hex_value h2, hex_value h3, hex_value h4 with
  | Some a, Some b, Some c, Some d => Some (((a * 16 + b) * 16 + c) * 16 + d)%N
  | _, _, _, _ => None
  end.

Definition is_high (u : N) : bool := ((55296 <=? u)%N && (u <=? 56319)%N).

Definition is_low (u : N) : bool := ((56320 <=? u)%N && (u <=? 57343)%N).

(** A string is kept as the bytes of its UTF-8 encoding. *)
Definition utf8 (cp : N) : string :=
  let byte n := ascii_of_N n in
  if (cp <? 128)%N then String (byte cp) EmptyString
  else if (cp <? 2048)%N then
    String (byte (192 + cp / 64)%N) (String (byte (128 + cp mod 64)%N) EmptyString)
  else if (cp <? 65536)%N then
    String (byte (224 + cp / 4096)%N)
      (String (byte (128 + (cp / 64) mod 64)%N)
         (String (byte (128 + cp mod 64)%N) EmptyString))
  else
    String (byte (240 + cp / 262144)%N)
      (String (byte (128 + (cp / 4096) mod 64)%N)
         (String (byte (128 + (cp / 64) mod 64)%N)
            (String (byte (128 + cp mod 64)%N) EmptyString))).

(** The code point of a high surrogate [u] followed by the escape
    [b v l1 l2 l3 l4], if that is the escape of a low surrogate. *)
Definition pair (u : N) (b v l1 l2 l3 l4 : ascii) : option N :=
  if Ascii.eqb b backslash && Ascii.eqb v "u" then
    match code_unit l1 l2 l3 l4 with
    | Some lo =>
        if is_low lo then Some (65536 + (u - 55296) * 1024 + (lo - 56320))%N
        else None
    | None => None
    end
  else None.

Definition simple_escape (d : ascii) : option ascii :=
  if Ascii.eqb d dquote || Ascii.eqb d backslash || Ascii.eqb d "/" then Some d
  else if Ascii.eqb d "b" then Some (ascii_of_nat 8)
  else if Ascii.eqb d "f" then Some (ascii_of_nat 12)
  else if Ascii.eqb d "n" then Some (ascii_of_nat 10)
  else if Ascii.eqb d "r" then Some (ascii_of_nat 13)
  else if Ascii.eqb d "t" then Some (ascii_of_nat 9)
  else None.

Definition prepend (p : string) (o : option (string * string))
  : option (string * string) :=
  match o with
  | Some (t, rest) => Some (p ++ t, rest)
  | None => None
  end.

(** The string literal whose opening quote has been read. *)
Fixpoint read_string (s : string) : option (string * string) :=
  match s with
  | EmptyString => None
  | String c r =>
      if Ascii.eqb c dquote then Some (EmptyString, r)
      else if Ascii.eqb c backslash then
        match r with
        | String d r' =>
            match simple_escape d with
            | Some x => prepend (String x EmptyString) (read_string r')
            | None =>
                if Ascii.eqb d "u" then
                  match r' with
                  | String h1 (String h2 (String h3 (String h4 r''))) =>
                      match code_unit h1 h2 h3 h4 with
                      | Some u =>
                          if is_high u then
                            match r'' with
                            | String b (String v (String l1 (String l2
                                (String l3 (String l4 r3))))) =>
                                match pair u b v l1 l2 l3 l4 with
                                | Some cp => prepend (utf8 cp) (read_string r3)
                                | None => prepend (utf8 u) (read_string r'')
                                end
                            | _ => prepend (utf8 u) (read_string r'')
                            end
                          else prepend (utf8 u) (read_string r'')
                      | None => None
                      end
                  | _ => None
                  end
                else None
            end
        | EmptyString => None
        end
      else if (N_of_ascii c <? 32)%N then None
      else prepend (String c EmptyString) (read_string r)
  end.

(** ** Texts of values *)

Section Join.

Context {A : Type} (f : A -> string).

(** The texts of the elements, with a comma between two of them. *)
Fixpoint join (l : list A) : string :=
  match l with
  | [] => EmptyString
  | x :: r =>
      match r with
      | [] => f x
      | _ => f x ++ String "," (join r)
      end
  end.

End Join.

Section Texts.

Context {A : Type} (f : A -> option string).

(** The texts of the elements that have one. *)
Fixpoint texts (l : list A) : list string :=
  match l with
  | [] => []
  | x :: r =>
      match f x with
      | Some t => t :: texts r
      | None => texts r
      end
  end.

End Texts.

Definition is_undefined (v : value) : bool :=
  match v with
  | VUndefined => true
  | _ => false
  end.

Definition byte_text (b : Byte.byte) : string := decimal (Byte.to_N b).

(** The bytes with their indices, from [i] on. *)
Fixpoint indexed (i : N) (bytes : list Byte.byte) : list (N * Byte.byte) :=
  match bytes with
  | [] => []
  | b :: rest => (i, b) :: indexed (i + 1)%N rest
  end.

(** The text of a value inside a text: [undefined] in an array is
    written [null] and a member whose value is [undefined] is not
    written; a number that is not finite is written [null]; a
    [Buffer] is written as its [toJSON()], a [Uint8Array] as the object
    of its elements; an [Error], an [ArrayBuffer] and a [Blob] have no
    member to write. *)
Fixpoint print (v : value) : string :=
  match v with
  | VUndefined | VNull => "null"
  | VBool true => "true"
  | VBool false => "false"
  | VNum n => integer_text n
  | VDouble x =>
      match x with
      | S754_finite _ _ _ | S754_zero _ => Number_toString x
      | _ => "null"
      end
  | VStr s => quote s
  | VBuffer bytes =>
      "{" ++ quote "type" ++ ":" ++ quote "Buffer" ++ "," ++ quote "data" ++ ":["
          ++ join byte_text bytes ++ "]}"
  | VUint8Array bytes =>
      "{" ++ join (fun ib => quote (decimal (fst ib)) ++ ":" ++ byte_text (snd ib))
                  (indexed 0%N bytes) ++ "}"
  | VErr _ | VArrayBuffer _ | VBlob _ _ => "{}"
  | VArr items => String "[" (join print items ++ "]")
  | VObj fields =>
      String "{"
        (join (fun t => t)
           (texts (fun kv =>
                     if is_undefined (snd kv) then None
                     else Some (quote (fst kv) ++ String ":" (print (snd kv))))
                  fields) ++ "}")
  end.

(** [JSON.stringify(v)] *)
Definition stringify (v : value) : value :=
  match v with
  | VUndefined => VUndefined
  | _ => VStr (print v)
  end.

(** ** Reading a text *)

Definition is_digit (c : ascii) : bool :=
  match c with
  | "0" | "1" | "2" | "3" | "4" | "5" | "6" | "7" | "8" | "9" => true
  | _ => false
  end%char.

Fixpoint read_digits (s : string) : string * string :=
  match s with
  | String c r =>
      if is_digit c then let (d, rest) := read_digits r in (String c d, rest)
      else (EmptyString, s)
  | EmptyString => (EmptyString, EmptyString)
  end.

(** The number of the digits [d]. *)
Definition digits_value (d : string) : N :=
  match NilEmpty.uint_of_string d with
  | Some u => N.of_uint u
  | None => 0%N
  end.

(** The number [m * 10 ^ e], negated if [negative]: an integer every
    double holds is kept as it is, any other decimal becomes the nearest
    double. *)
Definition number_of_decimal (negative : bool) (m : N) (e : Z) : value :=
  let n := if negative then (- Z.of_N m)%Z else Z.of_N m in
  if (e =? 0)%Z && safe n then VNum n
  else number_of_double (double_of_decimal negative m e).

(** The fraction of a number: [.] and at least one digit, or nothing. *)
Definition read_fraction (s : string) : option (string * string) :=
  match s with
  | String "." r =>
      match read_digits r with
      | (EmptyString, _) => None
      | (f, rest) => Some (f, rest)
      end
  | _ => Some (EmptyString, s)
  end.

(** The exponent of a number: [e] or [E], a sign or none, and at least
    one digit; or nothing. *)
Definition read_exponent (s : string) : option (Z * string) :=
  match s with
  | String c r =>
      if Ascii.eqb c "e" || Ascii.eqb c "E" then
        let '(negative, r1) :=
          match r with
          | String "-" r' => (true, r')
          | String "+" r' => (false, r')
          | _ => (false, r)
          end in
        match read_digits r1 with
        | (EmptyString, _) => None
        | (x, rest) =>
            let n := Z.of_N (digits_value x) in
            Some (if negative then (- n)%Z else n, rest)
        end
      else Some (0%Z, s)
  | EmptyString => Some (0%Z, s)
  end.

Definition read_number (s : string) : option (value * string) :=
  let '(negative, s1) :=
    match s with
    | String "-" r => (true, r)
    | _ => (false, s)
    end in
  match read_digits s1 with
  | (EmptyString, _) => None
  | (String c i, s2) =>
      if Ascii.eqb c "0" && negb (i =? EmptyString) then None
      else
        match read_fraction s2 with
        | Some (f, s3) =>
            match read_exponent s3 with
            | Some (x, s4) =>
                Some (number_of_decimal negative
                        (digits_value (String c i ++ f))
                        (x - Z.of_nat (String.length f)), s4)
            | None => None
            end
        | None => None
        end
  end.

(** [s] without its prefix [p]. *)
Fixpoint strip (p s : string) : option string :=
  match p with
  | EmptyString => Some s
  | String c p' =>
      match s with
      | String c' s' => if Ascii.eqb c' c then strip p' s' else None
      | EmptyString => None
      end
  end.

Definition literal (p : string) (v : value) (s : string) : option (value * string) :=
  match strip p s with
  | Some rest => Some (v, rest)
  | None => None
  end.

(** The white space of JSON: space, tab, line feed, carriage return. *)
Definition is_space (c : ascii) : bool :=
  let n := N_of_ascii c in
  (n =? 32)%N || (n =? 9)%N || (n =? 10)%N || (n =? 13)%N.

Fixpoint skip (s : string) : string :=
  match s with
  | String c r => if is_space c then skip r else s
  | EmptyString => EmptyString
  end.

(** The number of a name that is an array index: the digits, without a
    zero before them, of an integer below [2 ^ 32 - 1]. *)
Definition array_index (k : string) : option N :=
  match read_digits k with
  | (String c i, EmptyString) =>
      if Ascii.eqb c "0" && negb (i =? EmptyString) then None
      else if (digits_value k <? 4294967295)%N then Some (digits_value k)
      else None
  | _ => None
  end.

(** Does the name [k] come, in the order of the names of an object,
    before a new name that is the array index [i]? The array indices
    come first, in ascending order. *)
Definition before_index (i : N) (k : string) : bool :=
  match array_index k with
  | Some j => (j <? i)%N
  | None => false
  end.

(** A new member whose name is the array index [i]. *)
Fixpoint insert_index (i : N) (k : string) (v : value)
  (fields : list (string * value)) : list (string * value) :=
  match fields with
  | [] => [(k, v)]
  | (k', v') :: rest =>
      if before_index i k' then (k', v') :: insert_index i k v rest
      else (k, v) :: fields
  end.

(** A name that is there keeps its place and takes the new value. *)
Fixpoint redefine (k : string) (v : value) (fields : list (string * value))
  : list (string * value) :=
  match fields with
  | [] => []
  | (k', v') :: rest =>
      if k' =? k then (k', v) :: rest else (k', v') :: redefine k v rest
  end.

(** [CreateDataProperty]: a name that is there keeps its place; a new
    name goes to the end, or among the array indices if it is one. *)
Definition define (k : string) (v : value) (fields : list (string * value))
  : list (string * value) :=
  if existsb (String.eqb k) (List.map fst fields) then redefine k v fields
  else
    match array_index k with
    | Some i => insert_index i k v fields
    | None => (fields ++ [(k, v)])%list
    end.

(** The object of the members of a text. *)
Definition object_of_members (members : list (string * value))
  : list (string * value) :=
  fold_left (fun fields kv => define (fst kv) (snd kv) fields) members [].

Fixpoint read_value (fuel : nat) (s : string) {struct fuel}
  : option (value * string) :=
  match fuel with
  | O => None
  | S fuel =>
      match skip s with
      | EmptyString => None
      | String c r =>
          if Ascii.eqb c "[" then
            match strip "]" (skip r) with
            | Some rest => Some (VArr [], rest)
            | None =>
                match read_elements fuel r with
                | Some (l, rest) => Some (VArr l, rest)
                | None => None
                end
            end
          else if Ascii.eqb c "{" then
            match strip "}" (skip r) with
            | Some rest => Some (VObj [], rest)
            | None =>
                match read_members fuel r with
                | Some (l, rest) => Some (VObj (object_of_members l), rest)
                | None => None
                end
            end
          else if Ascii.eqb c dquote then
            match read_string r with
            | Some (t, rest) => Some (VStr t, rest)
            | None => None
            end
          else if Ascii.eqb c "n" then literal "ull" VNull r
          else if Ascii.eqb c "t" then literal "rue" (VBool true) r
          else if Ascii.eqb c "f" then literal "alse" (VBool false) r
          else read_number (String c r)
      end
  end
with read_elements (fuel : nat) (s : string) {struct fuel}
  : option (list value * string) :=
  match fuel with
  | O => None
  | S fuel =>
      match read_value fuel s with
      | Some (v, after) =>
          match skip after with
          | String c r =>
              if Ascii.eqb c "," then
                match read_elements fuel r with
                | Some (l, rest) => Some (v :: l, rest)
                | None => None
                end
              else if Ascii.eqb c "]" then Some ([v], r)
              else None
          | EmptyString => None
          end
      | None => None
      end
  end
with read_members (fuel : nat) (s : string) {struct fuel}
  : option (list (string * value) * string) :=
  match fuel with
  | O => None
  | S fuel =>
      match strip (String dquote EmptyString) (skip s) with
      | Some r =>
          match read_string r with
          | Some (k, r') =>
              match strip ":" (skip r') with
              | Some r'' =>
                  match read_value fuel r'' with
                  | Some (v, after) =>
                      match skip after with
                      | String c r3 =>
                          if Ascii.eqb c "," then
                            match read_members fuel r3 with
                            | Some (l, rest) => Some ((k, v) :: l, rest)
                            | None => None
                            end
                          else if Ascii.eqb c "}" then Some ([(k, v)], r3)
                          else None
                      | EmptyString => None
                      end
                  | None => None
                  end
              | None => None
              end
          | None => None
          end
      | None => None
      end
  end.

Definition SyntaxError : value := VErr "SyntaxError".

Definition string_of_bytes (bytes : list Byte.byte) : string :=
  string_of_list_ascii (List.map (fun b => ascii_of_N (Byte.to_N b)) bytes).

(** [ToString(v)], the text [JSON.parse] reads when its argument is not
    a string: an array is the texts of its elements with commas, [null]
    and [undefined] among them being empty; an object is
    [[object Object]], unless a member [toString] hides the method, then
    the conversion throws; a [Buffer] is its bytes as text; a
    [Uint8Array] is its elements with commas. *)
Fixpoint ToString (v : value) : result string :=
  match v with
  | VUndefined => Ok "undefined"
  | VNull => Ok "null"
  | VBool true => Ok "true"
  | VBool false => Ok "false"
  | VNum n => Ok (integer_text n)
  | VDouble x => Ok (Number_toString x)
  | VStr s => Ok s
  | VBuffer bytes => Ok (string_of_bytes bytes)
  | VErr name => Ok name
  | VArr items =>
      (fix elements (l : list value) : result string :=
         match l with
         | [] => Ok EmptyString
         | x :: r =>
             let text :=
               match x with
               | VUndefined | VNull => Ok EmptyString
               | _ => ToString x
               end in
             match text with
             | Ok t =>
                 match r with
                 | [] => Ok t
                 | _ =>
                     match elements r with
                     | Ok t' => Ok (t ++ String "," t')
                     | Throw e => Throw e
                     end
                 end
             | Throw e => Throw e
             end
         end) items
  | VObj fields =>
      if existsb (fun kv => fst kv =? "toString") fields then Throw TypeError
      else Ok "[object Object]"
  | VArrayBuffer _ => Ok "[object ArrayBuffer]"
  | VBlob _ _ => Ok "[object Blob]"
  | VUint8Array bytes => Ok (join byte_text bytes)
  end.

(** [JSON.parse(text)] *)
Definition parse (text : value) : result value :=
  match ToString text with
  | Ok s =>
      match read_value (S (String.length s)) s with
      | Some (v, rest) =>
          match skip rest with
          | EmptyString => Ok v
          | _ => Throw SyntaxError
          end
      | None => Throw SyntaxError
      end
  | Throw e => Throw e
  end.

#[export] Instance json : JSON := {|
  JSON_parse := parse;
  JSON_stringify := stringify
|}.

(** The text of one member of an object. *)
Definition member (kv : string * value) : string :=
  quote (fst kv) ++ String ":" (print (snd kv)).

(** How the text of a value starts: with a character that opens a value. *)
Definition opening (c : ascii) : bool :=
  is_digit c || Ascii.eqb c "-" || Ascii.eqb c dquote || Ascii.eqb c "["
  || Ascii.eqb c "{" || Ascii.eqb c "n" || Ascii.eqb c "t" || Ascii.eqb c "f".

(** What may follow a value in a text: the end, a comma or a closing
    bracket. *)
Definition delimited (rest : string) : bool :=
  match rest with
  | EmptyString => true
  | String c _ => Ascii.eqb c "," || Ascii.eqb c "]" || Ascii.eqb c "}"
  end.

Fixpoint distinct (keys : list string) : bool :=
  match keys with
  | [] => true
  | k :: rest => negb (existsb (String.eqb k) rest) && distinct rest
  end.

(** Is the name no array index? *)
Definition named (k : string) : bool :=
  match array_index k with
  | Some _ => false
  | None => true
  end.

(** Does the name [k] come after the array index [i]? *)
Definition after_index (i : N) (k : string) : bool :=
  match array_index k with
  | Some j => (i <? j)%N
  | None => true
  end.

(** The names are in the order of the names of an object: the array
    indices first, in ascending order, then the other names. *)
Fixpoint ordered (keys : list string) : bool :=
  match keys with
  | [] => true
  | k :: rest =>
      match array_index k with
      | Some i => forallb (after_index i) rest
      | None => forallb named rest
      end && ordered rest
  end.

(** The values of JSON: [null], booleans, the integers every double
    holds, strings, arrays of such values and objects of such values
    under distinct names in their order. *)
Fixpoint plain (v : value) : bool :=
  match v with
  | VNull | VBool _ | VStr _ => true
  | VNum n => safe n
  | VArr items => forallb plain items
  | VObj fields =>
      forallb (fun kv => plain (snd kv)) fields
      && distinct (List.map fst fields) && ordered (List.map fst fields)
  | _ => false
  end.

End RefJSON.

(* ===================================================================== *)
(** * Scenarios and invariants *)
(* ===================================================================== *)

(** The message of the scenario: [{type: "utf8", utf8Data: {event: "chat",
    data: "hi"}}]. *)
Definition chat_envelope : value :=
  VObj [("type", VStr "utf8");
        ("utf8Data", VObj [("event", VStr "chat"); ("data", VStr "hi")])].

(** An envelope whose payload is the empty string, with two more fields. *)
Definition empty_envelope : value :=
  VObj [("type", VStr "utf8"); ("utf8Data", VStr EmptyString);
        ("event", VStr "chat"); ("data", VStr "x")].

(** The configuration of the scenario:
    [{url: "ws://x", reconnectInterval: 1000, reconnectAttempts: 2}]. *)
Definition two_attempts : urlConfigOrSource :=
  Config (mkConfig "ws://x" None None (Some 1000%Z) (Some 2%Z)).

(** [n] ticks of timer [t], the transport made at each tick closing before
    the next one. *)
Fixpoint failed_attempts (n t : nat) : list action :=
  match n with
  | O => []
  | S n => Tick t :: Closed :: failed_attempts n t
  end.

(** The attempts of a session on timer [t], one for each outcome: the
    tick makes a transport, socket [k] for the first of them, and that
    transport closes before the next tick, without having opened. With
    the outcome [Some error] it reports [error] to its subscriber before
    the close notification, as a connection that fails does; with [None]
    it only closes. *)
Fixpoint reconnect_attempts (t k : nat) (outcomes : list (option value))
  : list action :=
  match outcomes with
  | [] => []
  | None :: rest => Tick t :: Closed :: reconnect_attempts t (S k) rest
  | Some error :: rest =>
      Tick t :: Failed k error :: Closed :: reconnect_attempts t (S k) rest
  end.

(** What the outcome of an attempt does to the subject: an error is
    reported while the handle is present, so it goes to [this.error]. *)
Definition reported (sj : Subject value) (outcome : option value)
  : Subject value :=
  match outcome with
  | Some error => Subject_error error sj
  | None => sj
  end.

(** The first error among the outcomes. *)
Fixpoint first_error (outcomes : list (option value)) : option value :=
  match outcomes with
  | [] => None
  | Some error :: _ => Some error
  | None :: rest => first_error rest
  end.

(** The reconnection session of a channel is the timer held in
    [_reconnectionObservable]. The fields and the running timers agree:
    when the field is set, the timer it names is the only one running and
    [_reconnectionSubscription] is the subscription to it; when the field
    is [undefined], no timer is running. *)
Definition session_inv (c : client) : Prop :=
  match _reconnectionObservable c with
  | Some t =>
      _reconnectionSubscription c = Some t /\
      exists i, intervals (runtime c) = [(t, i)]
  | None => intervals (runtime c) = []
  end.

(** The transport handle and the open subscriptions agree: when
    [_socket] is set, [_socketSubscription] is the subscription to it and
    no other subscription is open; when [_socket] is [undefined], no
    subscription is open. *)
Definition socket_inv (c : client) : Prop :=
  match _socket c with
  | Some k =>
      _socketSubscription c = Some k /\
      forall j, In j (subscribed (runtime c)) -> j = k
  | None => subscribed (runtime c) = []
  end.

(** A session is running on timer [t], its next tick has index [i], and
    there is no transport handle. *)
Definition session_at (c : client) (t i : nat) : Prop :=
  _reconnectionObservable c = Some t /\
  _reconnectionSubscription c = Some t /\
  intervals (runtime c) = [(t, i)] /\
  _socket c = None.

(** No two neighbours of the list are equal. *)
Fixpoint no_repeat (l : list bool) : Prop :=
  match l with
  | [] => True
  | b :: rest =>
      match rest with
      | [] => True
      | b' :: _ => b <> b'
      end /\ no_repeat rest
  end.

(** The last value of a list, if any. *)
Fixpoint last_value (l : list bool) : option bool :=
  match l with
  | [] => None
  | [b] => Some b
  | _ :: rest => last_value rest
  end.

(** The key of a [distinctUntilChanged] that had the key [key] and has
    then seen the values [vs]. *)
Definition key_after (key : option bool) (vs : list bool) : option bool :=
  match vs with
  | [] => key
  | _ => last_value vs
  end.

(* ===================================================================== *)
(** * More of the class and of its use *)
(* ===================================================================== *)

(** [onBytes(cb)]: [this.onBytes$().subscribe(message => cb(message))], the
    calls of [cb] in order. *)
Definition onBytes (src : list (notification value)) : list cb_call :=
  List.map cb_data (values (onBytes_dollar src)).

(** [message] is a binary envelope with the payload [binaryData]: its
    [type] is ["binary"] and its [binaryData] is truthy. *)
Definition binary_envelope (message binaryData : value) : Prop :=
  get message "type" = Ok (VStr "binary") /\
  get message "binaryData" = Ok binaryData /\
  truthy binaryData = true.

(** [undefined] and [null], the values whose properties cannot be read. *)
Definition nullish (v : value) : bool :=
  match v with
  | VUndefined | VNull => true
  | _ => false
  end.

(** No message of the list is [undefined] or [null]. *)
Definition all_values (ms : list value) : bool :=
  forallb (fun m => negb (nullish m)) ms.

(** The arguments of the calls [cb(message.data)] among the calls of a
    callback. *)
Fixpoint data_calls (l : list cb_call) : list value :=
  match l with
  | [] => []
  | cb_data d :: rest => d :: data_calls rest
  | _ :: rest => data_calls rest
  end.

(** The object [emit(event, data)] passes to [send]: [{ event, data }]. *)
Definition event_data (event : string) (d : value) : value :=
  VObj [("event", VStr event); ("data", d)].

(** The test a pair [{ event, data }] has to pass in the filter of
    [_message$(event)]: a name that is not empty and not reserved, and a
    truthy [data]. *)
Definition deliverable (event : string) (d : value) : bool :=
  negb (event =? EmptyString) && negb (event =? "error") &&
  negb (event =? "close") && truthy d.

(** The transport behind socket [k] delivers the messages [ms] in order. *)
Definition received (k : nat) (ms : list value) : list action :=
  List.map (Received k) ms.

(** The status subject never fails, and once it has completed there is no
    handle, no session, and the subject has ended. *)
Definition status_inv (c : client) : Prop :=
  match stopped (_connectionStatus_dollar c) with
  | Active => True
  | Completed =>
      _socket c = None /\ _reconnectionObservable c = None /\
      stopped (this_ c) <> Active
  | Errored _ => False
  end.

(** The subject completes only together with the status subject. *)
Definition completion_inv (c : client) : Prop :=
  stopped (this_ c) = Completed ->
  stopped (_connectionStatus_dollar c) = Completed.

(* ===================================================================== *)
(** * Properties of the codec *)
(* ===================================================================== *)

Section CodecFacts.

Context {J : JSON}.

Lemma deserializer_cases (e : MessageEvent) :
  _deserializer e =
  match JSON_parse (data e) with
  | Ok v => Ok v
  | Throw _ => Ok (data e)
  end.
Proof. unfold _deserializer, try_catch. destruct (JSON_parse (data e)); reflexivity. Qed.


End CodecFacts.

(** ** [JSON.parse] reads back what [JSON.stringify] printed *)

Module RefJSONFacts.
Import RefJSON.
Unset Implicit Arguments.

Lemma append_assoc (a b c : string) : (a ++ b) ++ c = a ++ (b ++ c).
Proof. induction a as [| x a IH]; simpl; [reflexivity | now rewrite IH]. Qed.

Lemma append_nil_r (a : string) : a ++ EmptyString = a.
Proof. induction a as [| x a IH]; simpl; [reflexivity | now rewrite IH]. Qed.

Lemma length_append (a b : string) :
  String.length (a ++ b) = String.length a + String.length b.
Proof. induction a as [| x a IH]; simpl; [reflexivity | now rewrite IH]. Qed.

Lemma length_cons c (s : string) : String.length (String c s) = S (String.length s).
Proof. reflexivity. Qed.

Lemma length_nil : String.length EmptyString = 0.
Proof. reflexivity. Qed.

Ltac lengths H :=
  repeat first [rewrite length_append in H | rewrite length_cons in H
               | rewrite length_nil in H].

Lemma strip_append p r : strip p (p ++ r) = Some r.
Proof.
  induction p as [| c p IH]; simpl; [reflexivity |].
  now rewrite Ascii.eqb_refl.
Qed.

(** *** Strings *)

Lemma read_escape_char c t :
  read_string (escape_char c ++ t) = prepend (String c EmptyString) (read_string t).
Proof.
  destruct c as [[] [] [] [] [] [] [] []]; reflexivity.
Qed.

Lemma read_string_escape s rest :
  read_string (escape s ++ String dquote rest) = Some (s, rest).
Proof.
  induction s as [| c s IH]; [reflexivity |].
  simpl escape. rewrite append_assoc, read_escape_char, IH. reflexivity.
Qed.

(** *** Numbers *)

Lemma delimited_cases rest :
  delimited rest = true ->
  rest = EmptyString \/
  exists c r, rest = String c r /\
              (c = "," \/ c = "]" \/ c = "}")%char.
Proof.
  destruct rest as [| c r]; [now left |]. simpl. intros H. right. exists c, r.
  split; [reflexivity |].
  apply orb_prop in H as [H | H]; [apply orb_prop in H as [H | H] |];
    apply Ascii.eqb_eq in H; auto.
Qed.

Lemma read_digits_uint d rest :
  delimited rest = true ->
  read_digits (NilEmpty.string_of_uint d ++ rest) = (NilEmpty.string_of_uint d, rest).
Proof.
  intros Hr. induction d; cbn; rewrite ?IHd; try reflexivity.
  destruct (delimited_cases rest Hr) as [-> | (c & r & -> & [-> | [-> | ->]])];
    reflexivity.
Qed.

Lemma skip_delimited rest : delimited rest = true -> skip rest = rest.
Proof.
  intros Hr.
  destruct (delimited_cases rest Hr) as [-> | (c & r & -> & [-> | [-> | ->]])];
    reflexivity.
Qed.

Lemma read_fraction_delimited rest :
  delimited rest = true -> read_fraction rest = Some (EmptyString, rest).
Proof.
  intros Hr.
  destruct (delimited_cases rest Hr) as [-> | (c & r & -> & [-> | [-> | ->]])];
    reflexivity.
Qed.

Lemma read_exponent_delimited rest :
  delimited rest = true -> read_exponent rest = Some (0%Z, rest).
Proof.
  intros Hr.
  destruct (delimited_cases rest Hr) as [-> | (c & r & -> & [-> | [-> | ->]])];
    reflexivity.
Qed.

Lemma to_uint_unorm p : Decimal.unorm (Pos.to_uint p) = Pos.to_uint p.
Proof.
  pose proof (DecimalN.Unsigned.to_of (Pos.to_uint p)) as H.
  change (N.of_uint (Pos.to_uint p)) with (Pos.of_uint (Pos.to_uint p)) in H.
  rewrite DecimalPos.Unsigned.of_to in H. exact (eq_sym H).
Qed.

(** The digits of a positive number do not start with a zero. *)
Lemma to_uint_head p :
  exists c r,
    NilEmpty.string_of_uint (Pos.to_uint p) = String c r /\
    is_digit c = true /\ Ascii.eqb c "0" = false.
Proof.
  pose proof (to_uint_unorm p) as Hn.
  pose proof (DecimalPos.Unsigned.to_uint_nonzero p) as Hz.
  pose proof (DecimalPos.Unsigned.to_uint_nonnil p) as Hnil.
  destruct (Pos.to_uint p) as [| d | d | d | d | d | d | d | d | d | d];
    [contradiction | | eexists; eexists; repeat split ..].
  exfalso. unfold Decimal.unorm in Hn. simpl Decimal.nzhead in Hn.
  destruct (Decimal.nzhead d) eqn:E.
  - injection Hn as <-. now apply Hz.
  - injection Hn as Hn. subst. exact (DecimalFacts.nzhead_nonzero _ _ E).
  - discriminate Hn.
  - discriminate Hn.
  - discriminate Hn.
  - discriminate Hn.
  - discriminate Hn.
  - discriminate Hn.
  - discriminate Hn.
  - discriminate Hn.
  - discriminate Hn.
Qed.

Lemma digits_value_pos p :
  digits_value (NilEmpty.string_of_uint (Pos.to_uint p)) = Npos p.
Proof.
  unfold digits_value. rewrite NilEmpty.usu.
  change (N.of_uint (Pos.to_uint p)) with (Pos.of_uint (Pos.to_uint p)).
  apply DecimalPos.Unsigned.of_to.
Qed.

Lemma read_natural p rest (negative : bool) :
  delimited rest = true ->
  safe (if negative then Z.neg p else Z.pos p) = true ->
  read_number ((if negative then "-" else EmptyString)
               ++ NilEmpty.string_of_uint (Pos.to_uint p) ++ rest)
  = Some (VNum (if negative then Z.neg p else Z.pos p), rest).
Proof.
  intros Hr Hs.
  destruct (to_uint_head p) as (c & r & Hd & Hc & H0).
  assert (read_number ((if negative then "-" else EmptyString)
                       ++ NilEmpty.string_of_uint (Pos.to_uint p) ++ rest)
          = match read_digits (NilEmpty.string_of_uint (Pos.to_uint p) ++ rest) with
            | (EmptyString, _) => None
            | (String c i, s2) =>
                if Ascii.eqb c "0" && negb (i =? EmptyString) then None
                else
                  match read_fraction s2 with
                  | Some (f, s3) =>
                      match read_exponent s3 with
                      | Some (x, s4) =>
                          Some (number_of_decimal negative
                                  (digits_value (String c i ++ f))
                                  (x - Z.of_nat (String.length f)), s4)
                      | None => None
                      end
                  | None => None
                  end
            end) as ->.
  { destruct negative; [reflexivity |].
    cbn [append]. rewrite Hd.
    change (String c r ++ rest) with (String c (r ++ rest)).
    unfold read_number.
    destruct c as [[] [] [] [] [] [] [] []]; try discriminate Hc; reflexivity. }
  rewrite (read_digits_uint _ _ Hr), Hd, H0. cbn [andb].
  rewrite (read_fraction_delimited _ Hr), (read_exponent_delimited _ Hr).
  rewrite append_nil_r, <- Hd, digits_value_pos.
  unfold number_of_decimal. cbn [String.length Z.of_nat Z.sub Z.eqb andb].
  destruct negative; cbn [Z.of_N Z.opp]; rewrite Hs; reflexivity.
Qed.

Lemma string_of_uint_pos p :
  NilZero.string_of_uint (Pos.to_uint p) = NilEmpty.string_of_uint (Pos.to_uint p).
Proof.
  pose proof (DecimalPos.Unsigned.to_uint_nonnil p).
  destruct (Pos.to_uint p); [contradiction | reflexivity ..].
Qed.

Lemma read_number_print n rest :
  safe n = true ->
  delimited rest = true ->
  read_number (print (VNum n) ++ rest) = Some (VNum n, rest).
Proof.
  intros Hs Hr. cbn [print]. unfold integer_text. rewrite Hs.
  destruct n as [| p | p].
  - destruct (delimited_cases rest Hr) as [-> | (c & r & -> & [-> | [-> | ->]])];
      reflexivity.
  - change (NilZero.string_of_int (Z.to_int (Z.pos p)) ++ rest)
      with (EmptyString ++ NilZero.string_of_uint (Pos.to_uint p) ++ rest).
    rewrite string_of_uint_pos.
    apply (read_natural p rest false Hr Hs).
  - change (NilZero.string_of_int (Z.to_int (Z.neg p)) ++ rest)
      with ("-" ++ NilZero.string_of_uint (Pos.to_uint p) ++ rest).
    rewrite string_of_uint_pos.
    apply (read_natural p rest true Hr Hs).
Qed.

(** *** Values *)

Lemma opening_facts c :
  opening c = true -> is_space c = false /\ Ascii.eqb c "]" = false.
Proof.
  destruct c as [[] [] [] [] [] [] [] []]; try discriminate; split; reflexivity.
Qed.

Lemma skip_char c r : is_space c = false -> skip (String c r) = String c r.
Proof. intros H. simpl. now rewrite H. Qed.

Lemma skip_opening c r : opening c = true -> skip (String c r) = String c r.
Proof. intros H. destruct (opening_facts c H) as (Hs & _). simpl. now rewrite Hs. Qed.

Lemma uint_head d :
  d <> Decimal.Nil ->
  exists c r, NilEmpty.string_of_uint d = String c r /\ is_digit c = true.
Proof. destruct d; [contradiction | ..]; intros _; eexists; eexists; split; reflexivity. Qed.

Lemma number_head n :
  safe n = true ->
  exists c r, print (VNum n) = String c r /\ (is_digit c || Ascii.eqb c "-") = true.
Proof.
  intros Hs. cbn [print]. unfold integer_text. rewrite Hs. destruct n as [| p | p].
  - exists "0"%char, EmptyString. split; reflexivity.
  - destruct (uint_head (Pos.to_uint p) (DecimalPos.Unsigned.to_uint_nonnil p))
      as (c & r & Hd & Hc).
    exists c, r. split; [| now rewrite Hc].
    simpl. destruct (Pos.to_uint p); [discriminate Hd | ..]; exact Hd.
  - exists "-"%char. eexists. split; reflexivity.
Qed.

Lemma print_head v :
  plain v = true ->
  exists c r, print v = String c r /\ opening c = true.
Proof.
  destruct v as [| | b | n | x | s | | | items | fields | | |];
    try discriminate; intros Hp.
  - eexists; eexists; split; reflexivity.
  - destruct b; eexists; eexists; split; reflexivity.
  - destruct (number_head n Hp) as (c & r & Hs & Hc).
    exists c, r. split; [exact Hs |]. unfold opening.
    apply orb_prop in Hc as [-> | ->]; [reflexivity |].
    now rewrite orb_true_r.
  - eexists; eexists; split; reflexivity.
  - eexists; eexists; split; reflexivity.
  - eexists; eexists; split; reflexivity.
Qed.

Lemma print_length v : plain v = true -> 1 <= String.length (print v).
Proof.
  intros H. destruct (print_head v H) as (c & r & Hs & _). rewrite Hs. simpl. lia.
Qed.

Lemma join_cons {A} (f : A -> string) x y l :
  join f (x :: y :: l) = f x ++ String "," (join f (y :: l)).
Proof. reflexivity. Qed.

Lemma join_head {A} (f : A -> string) x l :
  exists tail, join f (x :: l) = f x ++ tail.
Proof.
  destruct l as [| y l].
  - exists EmptyString. simpl. now rewrite append_nil_r.
  - eexists. apply join_cons.
Qed.

Lemma join_map {A} (f : A -> string) l :
  join (fun t => t) (List.map f l) = join f l.
Proof.
  induction l as [| x l IH]; [reflexivity |].
  destruct l as [| y l]; [reflexivity |].
  change (List.map f (x :: y :: l)) with (f x :: f y :: List.map f l).
  rewrite !join_cons. f_equal. f_equal. exact IH.
Qed.

Lemma plain_defined v : plain v = true -> is_undefined v = false.
Proof. destruct v; try discriminate; reflexivity. Qed.

(** Every member of an object of plain values is written. *)
Lemma texts_plain fields :
  forallb (fun kv => plain (snd kv)) fields = true ->
  texts (fun kv =>
           if is_undefined (snd kv) then None
           else Some (quote (fst kv) ++ String ":" (print (snd kv)))) fields
  = List.map member fields.
Proof.
  induction fields as [| kv fields IH]; [reflexivity |].
  intros H. apply andb_prop in H as (Hv & Hrest).
  cbn [texts List.map]. rewrite (plain_defined _ Hv), IH by exact Hrest.
  reflexivity.
Qed.

Lemma print_arr x items :
  print (VArr (x :: items)) = String "[" (join print (x :: items) ++ "]").
Proof. reflexivity. Qed.

Lemma print_obj fields :
  forallb (fun kv => plain (snd kv)) fields = true ->
  print (VObj fields) = String "{" (join member fields ++ "}").
Proof.
  intros H. cbn [print]. now rewrite (texts_plain fields H), join_map.
Qed.

(** *** Objects *)

Lemma define_fresh k v fields :
  existsb (String.eqb k) (List.map fst fields) = false ->
  define k v fields =
    match array_index k with
    | Some i => insert_index i k v fields
    | None => (fields ++ [(k, v)])%list
    end.
Proof. intros H. unfold define. now rewrite H. Qed.

Lemma insert_index_last i k v fields :
  forallb (before_index i) (List.map fst fields) = true ->
  insert_index i k v fields = (fields ++ [(k, v)])%list.
Proof.
  induction fields as [| (k', v') fields IH]; [reflexivity |].
  simpl. intros H. apply andb_prop in H as (Hk & Hrest).
  now rewrite Hk, IH.
Qed.

Lemma distinct_snoc keys k :
  distinct (keys ++ [k]) = true ->
  distinct keys = true /\ existsb (String.eqb k) keys = false.
Proof.
  induction keys as [| k' keys IH]; [now split |].
  simpl. intros H. apply andb_prop in H as (Hk & Hrest).
  destruct (IH Hrest) as (Hd & Hn).
  rewrite existsb_app, negb_orb in Hk. apply andb_prop in Hk as (Hk1 & Hk2).
  simpl in Hk2. rewrite orb_false_r in Hk2.
  split.
  - now rewrite Hk1, Hd.
  - rewrite String.eqb_sym. apply negb_true_iff in Hk2. now rewrite Hk2, Hn.
Qed.

Lemma ordered_snoc keys k :
  ordered (keys ++ [k]) = true ->
  ordered keys = true /\
  forall i, array_index k = Some i -> forallb (before_index i) keys = true.
Proof.
  induction keys as [| k' keys IH]; [now split |].
  change (ordered ((k' :: keys) ++ [k]))
    with (match array_index k' with
          | Some i => forallb (after_index i) (keys ++ [k])
          | None => forallb named (keys ++ [k])
          end && ordered (keys ++ [k])).
  intros H. apply andb_prop in H as (Hk & Hrest).
  destruct (IH Hrest) as (Ho & Hb).
  change (ordered (k' :: keys))
    with (match array_index k' with
          | Some i => forallb (after_index i) keys
          | None => forallb named keys
          end && ordered keys).
  rewrite Ho, andb_true_r.
  destruct (array_index k') as [j |] eqn:Ej;
    rewrite forallb_app in Hk; apply andb_prop in Hk as (Hk1 & Hk2);
    simpl in Hk2; rewrite andb_true_r in Hk2.
  - split; [exact Hk1 |].
    intros i Hi. simpl. rewrite (Hb i Hi), andb_true_r.
    unfold before_index. rewrite Ej.
    unfold after_index in Hk2. now rewrite Hi in Hk2.
  - split; [exact Hk1 |].
    intros i Hi. unfold named in Hk2. now rewrite Hi in Hk2.
Qed.

(** Members under distinct names in their order make the object they
    list. *)
Lemma object_of_distinct fields :
  distinct (List.map fst fields) = true ->
  ordered (List.map fst fields) = true ->
  object_of_members fields = fields.
Proof.
  unfold object_of_members.
  induction fields as [| (k, v) fields IH] using rev_ind; [reflexivity |].
  rewrite List.map_app. simpl List.map. intros H Ho.
  destruct (distinct_snoc _ _ H) as (Hd & Hn).
  destruct (ordered_snoc _ _ Ho) as (Ho' & Hb).
  rewrite fold_left_app, IH by assumption. simpl.
  rewrite (define_fresh _ _ _ Hn).
  destruct (array_index k) as [i |]; [| reflexivity].
  now apply insert_index_last, Hb.
Qed.

(** *** Reading back what was printed *)

Lemma read_value_step fuel c r :
  opening c = true ->
  read_value (S fuel) (String c r) =
  if Ascii.eqb c "[" then
    match strip "]" (skip r) with
    | Some rest => Some (VArr [], rest)
    | None =>
        match read_elements fuel r with
        | Some (l, rest) => Some (VArr l, rest)
        | None => None
        end
    end
  else if Ascii.eqb c "{" then
    match strip "}" (skip r) with
    | Some rest => Some (VObj [], rest)
    | None =>
        match read_members fuel r with
        | Some (l, rest) => Some (VObj (object_of_members l), rest)
        | None => None
        end
    end
  else if Ascii.eqb c dquote then
    match read_string r with
    | Some (t, rest) => Some (VStr t, rest)
    | None => None
    end
  else if Ascii.eqb c "n" then literal "ull" VNull r
  else if Ascii.eqb c "t" then literal "rue" (VBool true) r
  else if Ascii.eqb c "f" then literal "alse" (VBool false) r
  else read_number (String c r).
Proof.
  intros H. cbn [read_value]. now rewrite (skip_opening c r H).
Qed.

Lemma read_value_number fuel n rest :
  safe n = true ->
  delimited rest = true ->
  read_value (S fuel) (print (VNum n) ++ rest) = Some (VNum n, rest).
Proof.
  intros Hs Hr. rewrite <- (read_number_print n rest Hs Hr).
  destruct (number_head n Hs) as (c & r & Ht & Hc). rewrite Ht.
  change (String c r ++ rest) with (String c (r ++ rest)).
  rewrite read_value_step.
  - destruct c as [[] [] [] [] [] [] [] []]; try discriminate Hc; reflexivity.
  - unfold opening. apply orb_prop in Hc as [-> | ->]; [reflexivity |].
    now rewrite orb_true_r.
Qed.

Lemma read_elements_step fuel s :
  read_elements (S fuel) s =
  match read_value fuel s with
  | Some (v, after) =>
      match skip after with
      | String c r =>
          if Ascii.eqb c "," then
            match read_elements fuel r with
            | Some (l, rest) => Some (v :: l, rest)
            | None => None
            end
          else if Ascii.eqb c "]" then Some ([v], r)
          else None
      | EmptyString => None
      end
  | None => None
  end.
Proof. reflexivity. Qed.

Lemma read_members_step fuel s :
  read_members (S fuel) (String dquote s) =
  match read_string s with
  | Some (k, r') =>
      match strip ":" (skip r') with
      | Some r'' =>
          match read_value fuel r'' with
          | Some (v, after) =>
              match skip after with
              | String c r3 =>
                  if Ascii.eqb c "," then
                    match read_members fuel r3 with
                    | Some (l, rest) => Some ((k, v) :: l, rest)
                    | None => None
                    end
                  else if Ascii.eqb c "}" then Some ([(k, v)], r3)
                  else None
              | EmptyString => None
              end
          | None => None
          end
      | None => None
      end
  | None => None
  end.
Proof. reflexivity. Qed.

Lemma member_text k v tail :
  member (k, v) ++ tail =
  String dquote (escape k ++ String dquote (String ":" (print v ++ tail))).
Proof.
  unfold member, quote. simpl fst. simpl snd.
  rewrite !append_assoc. cbn [append]. rewrite !append_assoc. reflexivity.
Qed.

(** Reading back what was printed, with enough fuel. *)
Lemma read_print fuel :
  (forall v rest,
      plain v = true -> String.length (print v) <= fuel -> delimited rest = true ->
      read_value fuel (print v ++ rest) = Some (v, rest)) /\
  (forall x items rest,
      forallb plain (x :: items) = true ->
      String.length (join print (x :: items)) < fuel ->
      read_elements fuel (join print (x :: items) ++ String "]" rest)
      = Some (x :: items, rest)) /\
  (forall kv fields rest,
      forallb (fun kv => plain (snd kv)) (kv :: fields) = true ->
      String.length (join member (kv :: fields)) < fuel ->
      read_members fuel (join member (kv :: fields) ++ String "}" rest)
      = Some (kv :: fields, rest)).
Proof.
  induction fuel as [| fuel (IHv & IHe & IHm)].
  - split; [| split].
    + intros v rest Hp Hl _. pose proof (print_length v Hp). lia.
    + intros; lia.
    + intros; lia.
  - split; [| split].
    + intros v rest Hp Hl Hr.
      destruct v as [| | b | n | x | s | | | items | fields | | |];
        try discriminate Hp.
      * reflexivity.
      * destruct b; reflexivity.
      * now apply read_value_number.
      * unfold print, quote.
        change (String dquote ?x ++ rest) with (String dquote (x ++ rest)).
        rewrite read_value_step by reflexivity.
        cbn [Ascii.eqb Bool.eqb dquote ascii_of_nat ascii_of_pos].
        change (ascii_of_nat 34) with dquote.
        rewrite append_assoc.
        change (String dquote EmptyString ++ rest) with (String dquote rest).
        now rewrite read_string_escape.
      * destruct items as [| x items]; [reflexivity |].
        rewrite print_arr in *.
        change (String "[" ?x ++ rest) with (String "[" (x ++ rest)).
        rewrite read_value_step by reflexivity. cbn [Ascii.eqb Bool.eqb].
        rewrite append_assoc.
        change ("]" ++ rest) with (String "]" rest).
        simpl plain in Hp.
        assert (strip "]" (skip (join print (x :: items) ++ String "]" rest)) = None)
          as ->.
        { destruct (join_head print x items) as (tail & ->).
          apply andb_prop in Hp as (Hx & _).
          destruct (print_head x Hx) as (c & r & -> & Hc).
          change ((String c r ++ tail) ++ String "]" rest)
            with (String c ((r ++ tail) ++ String "]" rest)).
          rewrite (skip_opening c _ Hc).
          destruct (opening_facts c Hc) as (_ & Hb). simpl. now rewrite Hb. }
        rewrite IHe; [reflexivity | exact Hp |].
        lengths Hl. lia.
      * destruct fields as [| kv fields]; [reflexivity |].
        change (plain (VObj (kv :: fields)))
          with (forallb (fun kv => plain (snd kv)) (kv :: fields)
                && distinct (List.map fst (kv :: fields))
                && ordered (List.map fst (kv :: fields))) in Hp.
        apply andb_prop in Hp as (Hp & Ho).
        apply andb_prop in Hp as (Hp & Hd).
        rewrite (print_obj _ Hp) in *.
        change (String "{" ?x ++ rest) with (String "{" (x ++ rest)).
        rewrite read_value_step by reflexivity. cbn [Ascii.eqb Bool.eqb].
        rewrite append_assoc.
        change ("}" ++ rest) with (String "}" rest).
        assert (strip "}" (skip (join member (kv :: fields) ++ String "}" rest)) = None)
          as ->.
        { destruct (join_head member kv fields) as (tail & ->).
          destruct kv as (k, v). rewrite append_assoc, member_text. reflexivity. }
        rewrite IHm; [| exact Hp |].
        -- now rewrite (object_of_distinct _ Hd Ho).
        -- lengths Hl. lia.
    + intros x items rest Hp Hl.
      apply andb_prop in Hp as (Hx & Hitems).
      rewrite read_elements_step.
      destruct items as [| y items].
      * simpl join in *. rewrite IHv; [reflexivity | exact Hx | lia | reflexivity].
      * rewrite join_cons in *. rewrite append_assoc.
        change (String "," ?a ++ ?b) with (String "," (a ++ b)).
        lengths Hl.
        rewrite IHv; [| exact Hx | lia | reflexivity].
        rewrite !skip_char by reflexivity. cbn [Ascii.eqb Bool.eqb].
        rewrite IHe; [reflexivity | exact Hitems | lia].
    + intros (k, v) fields rest Hp Hl.
      apply andb_prop in Hp as (Hv & Hfields). simpl snd in Hv.
      destruct fields as [| kv' fields].
      * simpl join in *. rewrite member_text, read_members_step, read_string_escape.
        unfold member in Hl. simpl snd in Hl. lengths Hl.
        rewrite !skip_char by reflexivity. cbn [strip Ascii.eqb Bool.eqb].
        rewrite IHv; [reflexivity | exact Hv | lia | reflexivity].
      * rewrite join_cons in *. rewrite append_assoc, member_text.
        rewrite read_members_step, read_string_escape.
        change (String "," ?a ++ ?b) with (String "," (a ++ b)).
        unfold member at 1 in Hl. simpl snd in Hl. lengths Hl.
        rewrite !skip_char by reflexivity. cbn [strip Ascii.eqb Bool.eqb].
        rewrite IHv; [| exact Hv | lia | reflexivity].
        rewrite !skip_char by reflexivity. cbn [Ascii.eqb Bool.eqb].
        rewrite IHm; [reflexivity | exact Hfields | lia].
Qed.

(** [JSON.parse] returns the plain value that [JSON.stringify] printed. *)
Lemma parse_stringify v : plain v = true -> parse (stringify v) = Ok v.
Proof.
  intros Hp.
  assert (stringify v = VStr (print v)) as -> by (destruct v; try discriminate Hp; reflexivity).
  unfold parse. cbn [ToString].
  destruct (read_print (S (String.length (print v)))) as (Hv & _).
  rewrite <- (append_nil_r (print v)) at 2.
  rewrite Hv; [reflexivity | exact Hp | lia | reflexivity].
Qed.

Set Implicit Arguments.
End RefJSONFacts.

(** With [RefJSON] every plain object comes back from [_deserializer]
    after [_serializer]. *)
Lemma reference_roundtrip fields :
  RefJSON.plain (VObj fields) = true ->
  @_deserializer RefJSON.json
    (mkMessageEvent (@_serializer RefJSON.json (VObj fields)))
  = Ok (VObj fields).
Proof.
  intros Hp. rewrite deserializer_cases.
  cbn [data _serializer typeof_string isBuffer orb].
  change (RefJSON.parse (RefJSON.stringify (VObj fields)))
    with (@JSON_parse RefJSON.json (@JSON_stringify RefJSON.json (VObj fields))).
  change (@JSON_parse RefJSON.json (@JSON_stringify RefJSON.json (VObj fields)))
    with (RefJSON.parse (RefJSON.stringify (VObj fields))).
  now rewrite RefJSONFacts.parse_stringify.
Qed.





(** C6. [_deserializer] returns on every input, the decoded value when the
    decoding succeeds and the payload itself when the decoding throws. *)
Theorem deserializer_never_raises {J : JSON} (e : MessageEvent) :
  (exists v, _deserializer e = Ok v) /\
  (forall v, JSON_parse (data e) = Ok v -> _deserializer e = Ok v) /\
  (forall err, JSON_parse (data e) = Throw err -> _deserializer e = Ok (data e)).
Proof.
  rewrite deserializer_cases.
  destruct (JSON_parse (data e)) as [v | err] eqn:Hp; repeat split.
  - exists v. reflexivity.
  - intros v' Hv. exact Hv.
  - intros err Herr. discriminate Herr.
  - exists (data e). reflexivity.
  - intros v Hv. discriminate Hv.
Qed.

Lemma deserializer_never_raises_witness :
  @_deserializer RefJSON.json (mkMessageEvent (VStr "{oops")) = Ok (VStr "{oops").
Proof.
  destruct (@deserializer_never_raises RefJSON.json (mkMessageEvent (VStr "{oops")))
    as (_ & _ & Hraw).
  apply (Hraw RefJSON.SyntaxError). vm_compute. reflexivity.
Defined.

(* ===================================================================== *)
(** * Properties of the derived views *)
(* ===================================================================== *)

(** ** The views on small inputs *)

Example on_dollar_bare_message :
  on_dollar "chat"
    [Next (VObj [("event", VStr "chat"); ("data", VStr "hi")]);
     Next (VObj [("event", VStr "news"); ("data", VStr "no")]);
     Next (VObj [("event", VStr "chat")])]
  = [Next (VStr "hi")].
Proof. reflexivity. Qed.

Example on_reserved_names :
  on "error" [Next (VObj [("event", VStr "error"); ("data", VStr "x")]);
              Error (VErr "Event")]
  = [cb_error (VErr "Event")] /\
  on "close" [Next (VObj [("event", VStr "close"); ("data", VStr "x")]);
              Complete]
  = [cb_void].
Proof. split; reflexivity. Qed.

Example onClose_dollar_fires_once :
  onClose_dollar [Next (VStr "a"); Complete] = [Next tt; Complete] /\
  onClose_dollar [Next (VStr "a"); Error (VErr "Event")] = [].
Proof. split; reflexivity. Qed.

Example onBytes_dollar_unwraps :
  onBytes_dollar
    [Next (VObj [("type", VStr "binary"); ("binaryData", VBuffer [Byte.x74])]);
     Next (VBuffer [Byte.x6f])]
  = [Next (VBuffer [Byte.x74]); Next (VBuffer [Byte.x6f])].
Proof. reflexivity. Qed.

Example emit_hands_the_pair_to_the_socket :
  match emit "chat" (VStr "hi") (constructor (Url "ws://x")) with
  | Ok c =>
      outbox (runtime c) =
        [(0, VObj [("event", VStr "chat"); ("data", VStr "hi")])]
  | Throw _ => False
  end.
Proof. reflexivity. Qed.

(** ** The operators *)

Lemma in_rx_map {A B} (project : A -> result B) src w :
  In (Next w) (Rx.map project src) ->
  exists v, In (Next v) src /\ project v = Ok w.
Proof.
  induction src as [| n rest IH]; simpl; [contradiction |].
  destruct n as [v | e |].
  - destruct (project v) as [w' | e] eqn:Hp; simpl.
    + intros [Heq | Hin].
      * injection Heq as ->. exists v. split; [now left | exact Hp].
      * destruct (IH Hin) as (v' & Hv' & Hp'). exists v'. split; [now right | exact Hp'].
    + intros [Heq | []]. discriminate Heq.
  - intros [Heq | []]. discriminate Heq.
  - intros [Heq | []]. discriminate Heq.
Qed.

Lemma in_rx_filter {A} (predicate : A -> result bool) src v :
  In (Next v) (Rx.filter predicate src) ->
  In (Next v) src /\ predicate v = Ok true.
Proof.
  induction src as [| n rest IH]; simpl; [contradiction |].
  destruct n as [v' | e |].
  - destruct (predicate v') as [[|] | e] eqn:Hp; simpl.
    + intros [Heq | Hin].
      * injection Heq as ->. split; [now left | exact Hp].
      * destruct (IH Hin) as (Hv & Hpv). split; [now right | exact Hpv].
    + intros Hin. destruct (IH Hin) as (Hv & Hpv). split; [now right | exact Hpv].
    + intros [Heq | []]. discriminate Heq.
  - intros [Heq | []]. discriminate Heq.
  - intros [Heq | []]. discriminate Heq.
Qed.

(** ** The filter of [_message$] *)

Lemma is_string_eq v s : is_string v s = true -> v = VStr s.
Proof.
  destruct v; simpl; try discriminate.
  intros H. apply String.eqb_eq in H. now subst.
Qed.

Lemma is_string_neq s t : is_string (VStr s) t = false -> s <> t.
Proof. simpl. intros H. now apply String.eqb_neq. Qed.

Lemma truthy_nonempty d :
  truthy d = true ->
  d <> VUndefined /\ d <> VNull /\ d <> VStr EmptyString /\
  d <> VNum 0 /\ d <> VBool false.
Proof.
  intros H. repeat split; intros ->; simpl in H; discriminate H.
Qed.

(** A message passes the filter exactly when its [event] field is the
    string [event], which is neither empty nor a reserved name, and its
    [data] field is truthy. *)
Lemma event_filter_true event message :
  event_filter event message = Ok true <->
  exists d,
    get message "event" = Ok (VStr event) /\
    event <> EmptyString /\ event <> "error" /\ event <> "close" /\
    get message "data" = Ok d /\ truthy d = true.
Proof.
  unfold event_filter, bind.
  destruct (get message "event") as [ev | e] eqn:Hev.
  - destruct (truthy ev && negb (is_string ev "error") &&
              negb (is_string ev "close") && is_string ev event) eqn:Hc.
    + apply andb_prop in Hc as (Hc & Hname).
      apply andb_prop in Hc as (Hc & Hclose).
      apply andb_prop in Hc as (Htruthy & Herror).
      apply is_string_eq in Hname. subst ev.
      apply negb_true_iff in Hclose, Herror.
      apply is_string_neq in Hclose, Herror.
      simpl in Htruthy. apply negb_true_iff, String.eqb_neq in Htruthy.
      destruct (get message "data") as [d | e] eqn:Hd.
      * split.
        -- intros H. injection H as H. exists d. repeat split; auto.
        -- intros (d' & _ & _ & _ & _ & Hd' & Ht). injection Hd' as <-. now rewrite Ht.
      * split; [discriminate |].
        intros (d' & _ & _ & _ & _ & Hd' & _). discriminate Hd'.
    + split; [discriminate |].
      intros (d & Hev' & Hne & Herr & Hcl & _). injection Hev' as ->.
      simpl in Hc.
      apply String.eqb_neq in Hne, Herr, Hcl.
      rewrite Hne, Herr, Hcl, String.eqb_refl in Hc. discriminate Hc.
  - split; [discriminate |].
    intros (d & Hev' & _). discriminate Hev'.
Qed.

(** What [_message$(event)] delivers is the unwrapped form of a message
    of the source, and that form passes the filter. *)
Lemma in_message_dollar event src m :
  In (Next m) (_message_dollar event src) ->
  exists message,
    In (Next message) src /\ unwrap_utf8 message = Ok m /\
    event_filter event m = Ok true.
Proof.
  unfold _message_dollar. intros H.
  apply in_rx_filter in H as (H & Hf).
  apply in_rx_map in H as (message & Hin & Hu).
  exists message. auto.
Qed.

Lemma in_on event src d :
  In (cb_data d) (on event src) ->
  exists m, In (Next m) (_message_dollar event src) /\ get m "data" = Ok d.
Proof.
  unfold on. rewrite in_flat_map. intros (n & Hn & Hd).
  destruct n as [m | e |]; simpl in Hd.
  - destruct (get m "data") as [d' | e] eqn:Hg; simpl in Hd.
    + destruct Hd as [Heq | []]. injection Heq as ->. exists m. auto.
    + contradiction.
  - destruct (event =? "error"); simpl in Hd; [destruct Hd as [Heq | []]; discriminate Heq | contradiction].
  - destruct (event =? "close"); simpl in Hd; [destruct Hd as [Heq | []]; discriminate Heq | contradiction].
Qed.

(** C4. Whatever [on$(event)] emits, and whatever the message handler of
    [on(event, cb)] passes to [cb], is the [data] field of the normalized
    form of an inbound message whose [event] field is the string [event],
    where [event] is neither ["error"] nor ["close"] and the [data] field
    is truthy (so present and not empty). *)
Theorem on_delivers_data_of_matching_messages event src d :
  In (Next d) (on_dollar event src) \/ In (cb_data d) (on event src) ->
  exists message normalized,
    In (Next message) src /\
    unwrap_utf8 message = Ok normalized /\
    get normalized "event" = Ok (VStr event) /\
    event <> "error" /\ event <> "close" /\
    get normalized "data" = Ok d /\
    truthy d = true /\ d <> VUndefined /\ d <> VStr EmptyString.
Proof.
  intros H.
  assert (exists m, In (Next m) (_message_dollar event src) /\ get m "data" = Ok d)
    as (m & Hm & Hd).
  { destruct H as [H | H].
    - unfold on_dollar in H. now apply in_rx_map in H.
    - now apply in_on. }
  apply in_message_dollar in Hm as (message & Hin & Hu & Hf).
  apply event_filter_true in Hf as (d' & Hev & _ & Herr & Hcl & Hd' & Ht).
  rewrite Hd in Hd'. injection Hd' as <-.
  destruct (truthy_nonempty _ Ht) as (Hu1 & _ & Hu2 & _).
  exists message, m. repeat split; auto.
Qed.

Lemma on_delivers_data_of_matching_messages_witness :
  exists message normalized,
    In (Next message)
       [Next (VObj [("event", VStr "close"); ("data", VStr "bye")]);
        Next (VObj [("event", VStr "chat"); ("data", VStr "hi")])] /\
    unwrap_utf8 message = Ok normalized /\
    get normalized "event" = Ok (VStr "chat") /\
    "chat" <> "error" /\ "chat" <> "close" /\
    get normalized "data" = Ok (VStr "hi") /\
    truthy (VStr "hi") = true /\ VStr "hi" <> VUndefined /\
    VStr "hi" <> VStr EmptyString.
Proof.
  apply (@on_delivers_data_of_matching_messages "chat").
  left. vm_compute. left. reflexivity.
Defined.

(** ** The text envelope *)

Lemma unwrap_utf8_envelope fields :
  lookup "type" fields = VStr "utf8" ->
  unwrap_utf8 (VObj fields) =
  Ok (if truthy (lookup "utf8Data" fields)
      then lookup "utf8Data" fields else VObj fields).
Proof. intros Ht. unfold unwrap_utf8. simpl. rewrite Ht. reflexivity. Qed.

(** C7, as stated, fails: an envelope whose [utf8Data] is falsy is not
    unwrapped, the filter then sees the envelope and not the payload, and
    [on$("chat")] emits the envelope's own [data] where the unwrapped
    payload would have given nothing. *)
Lemma falsy_payload_not_unwrapped :
  get empty_envelope "type" = Ok (VStr "utf8") /\
  get empty_envelope "utf8Data" = Ok (VStr EmptyString) /\
  unwrap_utf8 empty_envelope <> Ok (VStr EmptyString) /\
  on_dollar "chat" [Next empty_envelope] = [Next (VStr "x")] /\
  Rx.map (fun m => get m "data")
    (Rx.filter (event_filter "chat") [Next (VStr EmptyString)]) = [].
Proof.
  repeat split; try reflexivity.
  vm_compute. discriminate.
Qed.

(** C7, amended. An envelope [{type: "utf8", utf8Data: value}] whose
    [value] is truthy is replaced by [value] before the filter of
    [_message$] runs, and one whose [value] is falsy goes to the filter as
    it is; when the transport delivers [chat_envelope] on an open
    subscription of a live channel, a subscriber of [on$("chat")] receives
    ["hi"]. *)
Theorem truthy_payload_unwrapped :
  (forall fields event rest,
      lookup "type" fields = VStr "utf8" ->
      truthy (lookup "utf8Data" fields) = true ->
      unwrap_utf8 (VObj fields) = Ok (lookup "utf8Data" fields) /\
      _message_dollar event (Next (VObj fields) :: rest) =
      Rx.filter (event_filter event)
        (Next (lookup "utf8Data" fields) :: Rx.map unwrap_utf8 rest)) /\
  (forall fields,
      lookup "type" fields = VStr "utf8" ->
      truthy (lookup "utf8Data" fields) = false ->
      unwrap_utf8 (VObj fields) = Ok (VObj fields)) /\
  (forall c k,
      mem k (subscribed (runtime c)) = true ->
      stopped (this_ c) = Active ->
      on_dollar "chat"
        (subscribe (List.length (emitted (this_ c)))
                   (this_ (step (Received k chat_envelope) c)))
      = [Next (VStr "hi")]).
Proof.
  split; [| split].
  - intros fields event rest Ht Hv.
    assert (unwrap_utf8 (VObj fields) = Ok (lookup "utf8Data" fields)) as Hu.
    { rewrite unwrap_utf8_envelope by exact Ht. now rewrite Hv. }
    split; [exact Hu |].
    unfold _message_dollar. simpl Rx.map. rewrite Hu. reflexivity.
  - intros fields Ht Hv. rewrite unwrap_utf8_envelope by exact Ht. now rewrite Hv.
  - intros c k Hk Ha. simpl. rewrite Hk.
    unfold socket_message, subscribe. simpl. unfold Subject_next. rewrite Ha. simpl.
    rewrite skipn_app, skipn_all, Nat.sub_diag. reflexivity.
Qed.

Lemma truthy_payload_unwrapped_witness :
  unwrap_utf8 chat_envelope =
    Ok (VObj [("event", VStr "chat"); ("data", VStr "hi")]) /\
  on_dollar "chat"
    (subscribe 0 (this_ (step (Received 0 chat_envelope)
                              (constructor (Url "ws://x")))))
  = [Next (VStr "hi")].
Proof.
  destruct truthy_payload_unwrapped as (Hunwrap & _ & Hscenario).
  split.
  - refine (proj1 (Hunwrap _ "chat" [] _ _)); reflexivity.
  - apply (Hscenario (constructor (Url "ws://x")) 0); reflexivity.
Defined.

(** ** The error view *)

Lemma catchError_values {A} (selector : value -> list (notification A)) vs tail :
  Rx.catchError selector (List.map Next vs ++ tail)%list =
  (List.map Next vs ++ Rx.catchError selector tail)%list.
Proof. induction vs as [| v vs IH]; simpl; [reflexivity | now rewrite IH]. Qed.

(** C9, as stated, fails: after the error has been delivered as a value
    the subscriber of [onError$()] receives [complete], the stream is
    over. *)
Lemma onError_completes_after_error :
  let c := run [Opened; Received 0 (VStr "a"); Failed 0 (VErr "Event")]
               (constructor (Url "ws://x")) in
  stopped (this_ c) = Errored (VErr "Event") /\
  onError_dollar (subscribe 0 (this_ c)) =
    [Next (VStr "a"); Next (VErr "Event"); Complete].
Proof. split; reflexivity. Qed.

(** C9, amended. When the subject has ended with the error [e], a
    subscriber of [onError$()] that came after [k] values has received the
    later values, then [e] as a value, then [complete]: the error reaches
    it as a value and the stream ends by completion, not by an error. A
    subscriber that comes after the end receives the error the subject
    holds then, as a value, and [complete]. *)
Theorem onError_emits_error_then_completes (sj : Subject value) k e :
  stopped sj = Errored e ->
  onError_dollar (subscribe k sj) =
    (List.map Next (skipn k (emitted sj)) ++ [Next e; Complete])%list /\
  ~ In (Error e) (onError_dollar (subscribe k sj)) /\
  (forall e', thrownError sj = Some e' ->
              onError_dollar (subscribe_stopped sj) = [Next e'; Complete]).
Proof.
  intros He. unfold onError_dollar, subscribe. rewrite He, catchError_values. simpl.
  split; [reflexivity | split].
  - rewrite in_app_iff, in_map_iff.
    intros [(v & Hv & _) | [H | [H | []]]]; discriminate.
  - intros e' Hheld. unfold subscribe_stopped. now rewrite Hheld.
Qed.

Lemma onError_emits_error_then_completes_witness :
  let c := run [Opened; Received 0 (VStr "a"); Failed 0 (VErr "Event")]
               (constructor (Url "ws://x")) in
  onError_dollar (subscribe 1 (this_ c)) = [Next (VErr "Event"); Complete] /\
  ~ In (Error (VErr "Event")) (onError_dollar (subscribe 1 (this_ c))) /\
  onError_dollar (subscribe_stopped (this_ c)) = [Next (VErr "Event"); Complete].
Proof.
  destruct (@onError_emits_error_then_completes
              (this_ (run [Opened; Received 0 (VStr "a"); Failed 0 (VErr "Event")]
                          (constructor (Url "ws://x")))) 1 (VErr "Event"))
    as (Hthere & Hnot & Hlate); [reflexivity |].
  split; [exact Hthere | split; [exact Hnot |]].
  apply Hlate. reflexivity.
Defined.

(* ===================================================================== *)
(** * Properties of the reconnection machine *)
(* ===================================================================== *)

(** ** The session invariant *)

Lemma reconnect_session c :
  intervals (runtime c) = [] ->
  session_inv (_reconnect c) /\
  intervals (runtime (_reconnect c)) = [(fresh (runtime c), 0)].
Proof.
  intros H. unfold session_inv, _reconnect. simpl. rewrite H.
  repeat split. now exists 0.
Qed.

Lemma cleanReconnection_session c :
  session_inv c ->
  intervals (runtime (_cleanReconnection c)) = [] /\
  _reconnectionObservable (_cleanReconnection c) = None.
Proof.
  unfold session_inv, _cleanReconnection.
  destruct (_reconnectionObservable c) as [t |].
  - intros (Hs & i & Hi). rewrite Hs. simpl. rewrite Hi. simpl.
    rewrite Nat.eqb_refl. auto.
  - intros Hi. destruct (_reconnectionSubscription c); simpl; rewrite Hi; auto.
Qed.

Lemma status_subscriber_session b c :
  session_inv c -> session_inv (status_subscriber b c).
Proof.
  intros H. unfold status_subscriber.
  destruct (_reconnectionObservable c) eqn:Ho; simpl; [exact H |].
  destruct b; simpl; [exact H |].
  apply reconnect_session. unfold session_inv in H. now rewrite Ho in H.
Qed.

Lemma connectionStatus_next_session b c :
  session_inv c -> session_inv (connectionStatus_next b c).
Proof.
  intros H. unfold connectionStatus_next.
  destruct (stopped (_connectionStatus_dollar c)); [| exact H | exact H].
  match goal with |- context [same_key ?k b] => destruct (same_key k b) end.
  - exact H.
  - apply status_subscriber_session. exact H.
Qed.

Lemma cleanSocket_session c : session_inv c -> session_inv (_cleanSocket c).
Proof.
  unfold session_inv, _cleanSocket.
  destruct (_socketSubscription c); simpl; auto.
Qed.

Lemma connect_session c : session_inv c -> session_inv (_connect c).
Proof. unfold session_inv, _connect. simpl. auto. Qed.

Lemma tick_index_single t t' i :
  tick_index t' [(t, i)] = (if (t =? t')%nat then Some i else None).
Proof. simpl. destruct (t =? t')%nat; reflexivity. Qed.

Lemma step_session_inv a c : session_inv c -> session_inv (step a c).
Proof.
  intros H. destruct a as [| | k m | k error | t | d]; simpl.
  - now apply connectionStatus_next_session.
  - now apply connectionStatus_next_session, cleanSocket_session.
  - destruct (mem k (subscribed (runtime c))); exact H.
  - destruct (mem k (subscribed (runtime c))); [| exact H].
    unfold socket_error.
    assert (session_inv (set_runtime (unsubscribe_socket k) c)) as H' by exact H.
    destruct (is_none (_socket (set_runtime (unsubscribe_socket k) c))).
    + apply reconnect_session. now apply cleanReconnection_session.
    + exact H'.
  - destruct (tick_index t (intervals (runtime c))) as [index |] eqn:Hidx; [| exact H].
    unfold session_inv in H.
    destruct (_reconnectionObservable c) as [t0 |] eqn:Ho.
    + destruct H as (Hs & i & Hi). rewrite Hi, tick_index_single in Hidx.
      destruct (t0 =? t)%nat eqn:Ht; [| discriminate].
      apply Nat.eqb_eq in Ht. subst t0.
      destruct (reconnection_continues index c).
      * unfold reconnection_tick. apply connect_session.
        unfold session_inv. simpl. rewrite Ho, Hs.
        split; [reflexivity |]. exists (S i). rewrite Hi. simpl.
        now rewrite Nat.eqb_refl.
      * unfold reconnection_complete, _cleanReconnection. simpl.
        rewrite Hs. simpl.
        destruct (is_none (_socket c)); unfold session_inv; simpl;
          rewrite Hi; simpl; rewrite Nat.eqb_refl; reflexivity.
    + rewrite H in Hidx. discriminate.
  - unfold send. destruct (_socket c); exact H.
Qed.

Lemma constructor_session_inv a : session_inv (constructor a).
Proof. reflexivity. Qed.

Lemma reachable_session_inv c : reachable c -> session_inv c.
Proof.
  induction 1 as [a | a c _ IH].
  - apply constructor_session_inv.
  - now apply step_session_inv.
Qed.

Lemma run_reachable l c : reachable c -> reachable (run l c).
Proof.
  revert c. induction l as [| a l IH]; intros c H; simpl; [exact H |].
  apply IH. now constructor.
Qed.

(** ** Failed attempts and exhaustion *)

Lemma tick_continues c t i :
  tick_index t (intervals (runtime c)) = Some i ->
  reconnection_continues i c = true ->
  step (Tick t) c = _connect (set_runtime (advance t) c).
Proof. intros Hi Hc. simpl. now rewrite Hi, Hc. Qed.

Lemma tick_stops c t i :
  tick_index t (intervals (runtime c)) = Some i ->
  reconnection_continues i c = false ->
  step (Tick t) c = reconnection_complete (set_runtime (unsubscribe_interval t) c).
Proof. intros Hi Hc. simpl. now rewrite Hi, Hc. Qed.

(** While a session is running, a status value moves nothing but the
    status subject and the key of the constructor's subscription. *)
Lemma connectionStatus_next_in_session b c t :
  _reconnectionObservable c = Some t ->
  let c' := connectionStatus_next b c in
  this_ c' = this_ c /\
  _reconnectionObservable c' = _reconnectionObservable c /\
  _socket c' = _socket c /\
  _socketSubscription c' = _socketSubscription c /\
  _reconnectionSubscription c' = _reconnectionSubscription c /\
  _reconnectAttempts c' = _reconnectAttempts c /\
  runtime c' = runtime c /\
  stopped (_connectionStatus_dollar c') = stopped (_connectionStatus_dollar c).
Proof.
  intros Ho. unfold connectionStatus_next.
  destruct (stopped (_connectionStatus_dollar c)) eqn:Hst;
    try (cbv zeta; rewrite Hst; repeat split; reflexivity).
  match goal with |- context [same_key ?k b] => destruct (same_key k b) end;
    unfold status_subscriber; simpl; rewrite ?Ho; simpl; rewrite ?Ho;
    unfold Subject_next; rewrite Hst; repeat split; reflexivity.
Qed.

(** One tick of the session that finds no handle and has attempts left
    makes a transport; when that transport closes, the session is one tick
    further and nothing else has moved. *)
Lemma failed_attempt c t i :
  session_at c t i ->
  (Z.of_nat i < _reconnectAttempts c)%Z ->
  let c' := run [Tick t; Closed] c in
  session_at c' t (S i) /\
  this_ c' = this_ c /\
  stopped (_connectionStatus_dollar c') = stopped (_connectionStatus_dollar c) /\
  _reconnectAttempts c' = _reconnectAttempts c /\
  created (runtime c') = (created (runtime c) ++ [fresh (runtime c)])%list /\
  outbox (runtime c') = outbox (runtime c).
Proof.
  intros (Ho & Hs & Hi & Hk) Hlt.
  assert (step (Tick t) c = _connect (set_runtime (advance t) c)) as Htick.
  { apply tick_continues with (i := i).
    - rewrite Hi. simpl. now rewrite Nat.eqb_refl.
    - unfold reconnection_continues. rewrite Hk.
      apply Z.ltb_lt in Hlt. now rewrite Hlt. }
  cbv zeta. unfold run. cbn [fold_left]. rewrite Htick.
  change (step Closed ?x) with (connectionStatus_next false (_cleanSocket x)).
  set (c2 := _cleanSocket (_connect (set_runtime (advance t) c))).
  assert (_reconnectionObservable c2 = Some t) as Ho2 by exact Ho.
  destruct (connectionStatus_next_in_session false c2 Ho2)
    as (Hthis & Hobs & Hsock & _ & Hsub & Hatt & Hrun & Hst).
  unfold session_at. rewrite Hthis, Hobs, Hsock, Hsub, Hatt, Hrun, Hst.
  subst c2. unfold _cleanSocket, _connect. simpl. rewrite Hi. simpl.
  rewrite Nat.eqb_refl. repeat split; assumption.
Qed.

Lemma run_cons a l c : run (a :: l) c = run l (step a c).
Proof. reflexivity. Qed.

Lemma failed_attempts_run n : forall c t i,
  session_at c t i ->
  (Z.of_nat (i + n) <= _reconnectAttempts c)%Z ->
  let c' := run (failed_attempts n t) c in
  session_at c' t (i + n) /\
  this_ c' = this_ c /\
  stopped (_connectionStatus_dollar c') = stopped (_connectionStatus_dollar c) /\
  _reconnectAttempts c' = _reconnectAttempts c /\
  List.length (created (runtime c')) = List.length (created (runtime c)) + n /\
  outbox (runtime c') = outbox (runtime c).
Proof.
  induction n as [| n IH]; intros c t i Hat Hle.
  - simpl. rewrite !Nat.add_0_r. repeat split; try reflexivity; apply Hat.
  - change (run (failed_attempts (S n) t) c)
      with (run (failed_attempts n t) (run [Tick t; Closed] c)).
    destruct (failed_attempt Hat) as (Hat' & Hthis & Hst & Hatt & Hcr & Hout); [lia |].
    destruct (IH (run [Tick t; Closed] c) t (S i) Hat') as
      (Hat'' & Hthis' & Hst' & Hatt' & Hcr' & Hout'); [rewrite Hatt; lia |].
    cbv zeta. rewrite Hthis', Hst', Hatt', Hcr', Hout', Hthis, Hst, Hatt, Hcr, Hout.
    rewrite length_app. simpl.
    replace (i + S n) with (S i + n) by lia.
    split; [exact Hat'' | repeat split; lia].
Qed.

(** The tick that finds the attempts used up and no handle ends the
    session and completes both subjects. *)
Lemma exhausted_tick c t i :
  session_at c t i ->
  (_reconnectAttempts c <= Z.of_nat i)%Z ->
  let c' := step (Tick t) c in
  this_ c' = Subject_complete (this_ c) /\
  _connectionStatus_dollar c' = Subject_complete (_connectionStatus_dollar c) /\
  intervals (runtime c') = [] /\
  _reconnectionObservable c' = None /\
  _socket c' = None /\
  created (runtime c') = created (runtime c) /\
  outbox (runtime c') = outbox (runtime c).
Proof.
  intros (Ho & Hs & Hi & Hk) Hle.
  assert (step (Tick t) c =
          reconnection_complete (set_runtime (unsubscribe_interval t) c)) as Htick.
  { apply tick_stops with (i := i).
    - rewrite Hi. simpl. now rewrite Nat.eqb_refl.
    - unfold reconnection_continues. apply Z.ltb_ge in Hle. now rewrite Hle. }
  cbv zeta. rewrite Htick.
  unfold reconnection_complete, _cleanReconnection. simpl.
  rewrite Hs. simpl. rewrite Hk. simpl. rewrite Hi. simpl.
  rewrite Nat.eqb_refl. repeat split; try reflexivity. exact Hk.
Qed.

Lemma send_without_handle c d :
  _socket c = None -> send d c = Throw TypeError /\ step (Send d) c = c.
Proof. intros H. unfold step, send. rewrite H. auto. Qed.

(** The first close notification of a channel, before any open: the
    handle is cleared and a session starts on timer 1. *)
Lemma first_close a :
  let c := step Closed (constructor a) in
  session_at c 1 0 /\
  stopped (this_ c) = Active /\
  stopped (_connectionStatus_dollar c) = Active /\
  _reconnectAttempts c = _reconnectAttempts (constructor a) /\
  created (runtime c) = [0].
Proof. repeat split. Qed.

(** C1, as stated, fails. With [reconnectAttempts: 2], after two ticks of
    the session that each found no handle and whose transports closed,
    neither subject has completed and the session is still running; they
    complete at the third tick. A [send] after that throws a [TypeError].
    And when the transports report an error before they close, as a
    connection that fails does, the subject ends with the first error
    and never completes: at the third tick only the status subject
    completes. *)
Lemma two_ticks_do_not_complete :
  let c := run (Closed :: failed_attempts 2 1) (constructor two_attempts) in
  let e := VErr "Event" in
  let c' := run (Closed :: reconnect_attempts 1 2 [Some e; Some (VErr "Later")])
                (constructor two_attempts) in
  (_reconnectAttempts c = 2%Z /\
   _socket c = None /\
   stopped (this_ c) = Active /\
   stopped (_connectionStatus_dollar c) = Active /\
   intervals (runtime c) = [(1, 2)] /\
   stopped (this_ (step (Tick 1) c)) = Completed /\
   send (VStr "late") (step (Tick 1) c) = Throw TypeError) /\
  (stopped (this_ c') = Errored e /\
   intervals (runtime c') = [(1, 2)] /\
   stopped (this_ (step (Tick 1) c')) = Errored e /\
   stopped (_connectionStatus_dollar (step (Tick 1) c')) = Completed).
Proof. repeat split. Qed.

(** One attempt of a session, with its outcome. *)
Lemma attempt_outcome c t i outcome :
  session_at c t i ->
  (Z.of_nat i < _reconnectAttempts c)%Z ->
  let c' := run (reconnect_attempts t (fresh (runtime c)) [outcome]) c in
  session_at c' t (S i) /\
  this_ c' = reported (this_ c) outcome /\
  stopped (_connectionStatus_dollar c') = stopped (_connectionStatus_dollar c) /\
  _reconnectAttempts c' = _reconnectAttempts c /\
  created (runtime c') = (created (runtime c) ++ [fresh (runtime c)])%list /\
  outbox (runtime c') = outbox (runtime c) /\
  fresh (runtime c') = S (fresh (runtime c)).
Proof.
  intros (Ho & Hs & Hi & Hk) Hlt.
  assert (step (Tick t) c = _connect (set_runtime (advance t) c)) as Htick.
  { apply tick_continues with (i := i).
    - rewrite Hi. simpl. now rewrite Nat.eqb_refl.
    - unfold reconnection_continues. rewrite Hk.
      apply Z.ltb_lt in Hlt. now rewrite Hlt. }
  cbv zeta. destruct outcome as [error |]; unfold run; cbn [reconnect_attempts fold_left];
    rewrite Htick.
  - assert (step (Failed (fresh (runtime c)) error)
              (_connect (set_runtime (advance t) c)) =
            set_this (Subject_error error)
              (set_runtime (unsubscribe_socket (fresh (runtime c)))
                 (_connect (set_runtime (advance t) c)))) as Hfail.
    { simpl. now rewrite Nat.eqb_refl. }
    rewrite Hfail.
    change (step Closed ?x) with (connectionStatus_next false (_cleanSocket x)).
    match goal with
    | |- context [connectionStatus_next false ?x] => set (c2 := x)
    end.
    assert (_reconnectionObservable c2 = Some t) as Ho2 by exact Ho.
    destruct (connectionStatus_next_in_session false c2 Ho2)
      as (Hthis & Hobs & Hsock & _ & Hsub & Hatt & Hrun & Hst).
    unfold session_at. rewrite Hthis, Hobs, Hsock, Hsub, Hatt, Hrun, Hst.
    subst c2. unfold _cleanSocket, _connect. simpl. rewrite Hi. simpl.
    rewrite Nat.eqb_refl. repeat split; assumption.
  - change (step Closed ?x) with (connectionStatus_next false (_cleanSocket x)).
    set (c2 := _cleanSocket (_connect (set_runtime (advance t) c))).
    assert (_reconnectionObservable c2 = Some t) as Ho2 by exact Ho.
    destruct (connectionStatus_next_in_session false c2 Ho2)
      as (Hthis & Hobs & Hsock & _ & Hsub & Hatt & Hrun & Hst).
    unfold session_at. rewrite Hthis, Hobs, Hsock, Hsub, Hatt, Hrun, Hst.
    subst c2. unfold _cleanSocket, _connect. simpl. rewrite Hi. simpl.
    rewrite Nat.eqb_refl. repeat split; assumption.
Qed.

Lemma reconnect_attempts_cons t k outcome rest c :
  run (reconnect_attempts t k (outcome :: rest)) c =
  run (reconnect_attempts t (S k) rest) (run (reconnect_attempts t k [outcome]) c).
Proof. destruct outcome; reflexivity. Qed.

(** The attempts of a session, as long as its index stays below
    [_reconnectAttempts]. *)
Lemma reconnect_attempts_run outcomes : forall c t i,
  session_at c t i ->
  (Z.of_nat (i + List.length outcomes) <= _reconnectAttempts c)%Z ->
  let c' := run (reconnect_attempts t (fresh (runtime c)) outcomes) c in
  session_at c' t (i + List.length outcomes) /\
  this_ c' = fold_left reported outcomes (this_ c) /\
  stopped (_connectionStatus_dollar c') = stopped (_connectionStatus_dollar c) /\
  _reconnectAttempts c' = _reconnectAttempts c /\
  List.length (created (runtime c')) =
    List.length (created (runtime c)) + List.length outcomes /\
  outbox (runtime c') = outbox (runtime c).
Proof.
  induction outcomes as [| o outcomes IH]; intros c t i Hat Hle.
  - simpl. rewrite !Nat.add_0_r. repeat split; try reflexivity; apply Hat.
  - rewrite reconnect_attempts_cons. simpl List.length in *.
    destruct (@attempt_outcome c t i o Hat)
      as (Hat' & Hthis & Hst & Hatt & Hcr & Hout & Hfresh); [lia |].
    rewrite <- Hfresh.
    destruct (IH (run (reconnect_attempts t (fresh (runtime c)) [o]) c) t (S i) Hat')
      as (Hat'' & Hthis' & Hst' & Hatt' & Hcr' & Hout'); [rewrite Hatt; lia |].
    cbv zeta. rewrite Hthis', Hst', Hatt', Hcr', Hout', Hthis, Hst, Hatt, Hcr, Hout.
    rewrite length_app. simpl.
    replace (i + S (List.length outcomes)) with (S i + List.length outcomes) by lia.
    split; [exact Hat'' | repeat split; lia].
Qed.

(** The subject after the outcomes of the attempts: it ends with the
    first error reported, holds the last one, and has delivered nothing. *)
Lemma reported_outcomes outcomes : forall sj : Subject value,
  emitted (fold_left reported outcomes sj) = emitted sj /\
  stopped (fold_left reported outcomes sj) =
    match stopped sj with
    | Active =>
        match first_error outcomes with
        | Some error => Errored error
        | None => Active
        end
    | st => st
    end.
Proof.
  induction outcomes as [| o outcomes IH]; intros sj.
  - simpl. split; [reflexivity | destruct (stopped sj); reflexivity].
  - simpl fold_left. destruct (IH (reported sj o)) as (-> & ->).
    destruct o as [error |]; simpl; [| now split].
    unfold Subject_error. destruct (stopped sj); simpl; now split.
Qed.

(** C1, amended. Let a session run with no handle on a channel whose
    status subject is active, its next tick having index [i], and let
    [_reconnectAttempts] be [i + n]. If the transport made at each of the
    next [n] ticks closes before the next tick without having opened
    (after reporting an error, or not), then after these [n] ticks the
    session still runs and the status subject is still active; the tick
    after them, the one whose index is [_reconnectAttempts], ends the
    session and completes the status subject. The subject completes at
    that tick if it was active when the session was at [i] and none of
    the transports reported an error; if it had ended before, it stays
    as it ended, and if one of the transports reported an error, it has
    ended with the first error reported and does not complete. From
    then on there is no handle: [send] throws a [TypeError], hands
    nothing to a transport and leaves the channel as it is. *)
Theorem retry_exhaustion c t i outcomes :
  session_at c t i ->
  _reconnectAttempts c = Z.of_nat (i + List.length outcomes) ->
  stopped (_connectionStatus_dollar c) = Active ->
  let n := List.length outcomes in
  let c1 := run (reconnect_attempts t (fresh (runtime c)) outcomes) c in
  let c2 := step (Tick t) c1 in
  let ended :=
    match stopped (this_ c) with
    | Active =>
        match first_error outcomes with
        | Some error => Errored error
        | None => Active
        end
    | st => st
    end in
  (session_at c1 t (i + n) /\
   stopped (_connectionStatus_dollar c1) = Active /\
   stopped (this_ c1) = ended /\
   List.length (created (runtime c1)) = List.length (created (runtime c)) + n) /\
  (stopped (_connectionStatus_dollar c2) = Completed /\
   stopped (this_ c2) =
     match ended with
     | Active => Completed
     | st => st
     end /\
   emitted (this_ c2) = emitted (this_ c) /\
   intervals (runtime c2) = [] /\
   _reconnectionObservable c2 = None /\
   _socket c2 = None /\
   created (runtime c2) = created (runtime c1)) /\
  (forall d, send d c2 = Throw TypeError /\
             step (Send d) c2 = c2 /\
             outbox (runtime c2) = outbox (runtime c)).
Proof.
  intros Hat Hatt Hstatus.
  destruct (@reconnect_attempts_run outcomes c t i Hat) as
    (Hat1 & Hthis1 & Hst1 & Hatt1 & Hcr1 & Hout1); [lia |].
  destruct (@exhausted_tick
              (run (reconnect_attempts t (fresh (runtime c)) outcomes) c)
              t (i + List.length outcomes) Hat1) as
    (Hthis2 & Hst2 & Hint2 & Hobs2 & Hsock2 & Hcr2 & Hout2); [lia |].
  destruct (reported_outcomes outcomes (this_ c)) as (Hemitted & Hstopped).
  cbv zeta. rewrite Hthis2, Hst2, Hthis1.
  unfold Subject_complete. rewrite !Hst1, Hstatus, Hstopped. cbn [stopped].
  split; [| split].
  - split; [exact Hat1 | auto].
  - destruct (stopped (this_ c)); [destruct (first_error outcomes) as [error |] | |];
      cbn [stopped emitted];
      rewrite ?Hstopped, ?Hemitted; repeat split; try reflexivity; assumption.
  - intros d. destruct (send_without_handle _ d Hsock2) as (Hthrow & Hsame).
    repeat split; [exact Hthrow | exact Hsame | now rewrite Hout2].
Qed.

Lemma retry_exhaustion_witness :
  let e := VErr "Event" in
  let c := step Closed (constructor two_attempts) in
  let quiet := step (Tick 1) (run (reconnect_attempts 1 2 [None; None]) c) in
  let failing := step (Tick 1) (run (reconnect_attempts 1 2 [None; Some e]) c) in
  let lost :=
    step (Tick 1)
      (run (reconnect_attempts 1 2 [None; None])
         (run [Failed 0 e; Closed] (constructor two_attempts))) in
  stopped (this_ quiet) = Completed /\
  stopped (_connectionStatus_dollar quiet) = Completed /\
  stopped (this_ failing) = Errored e /\
  stopped (_connectionStatus_dollar failing) = Completed /\
  send (VStr "late") failing = Throw TypeError /\
  stopped (this_ lost) = Errored e /\
  stopped (_connectionStatus_dollar lost) = Completed.
Proof.
  destruct (@retry_exhaustion (step Closed (constructor two_attempts)) 1 0
              [None; None])
    as (_ & (Hstatus & Hthis & _) & _);
    [repeat split | reflexivity | reflexivity |].
  destruct (@retry_exhaustion (step Closed (constructor two_attempts)) 1 0
              [None; Some (VErr "Event")])
    as (_ & (Hstatus' & Hthis' & _) & Hsend);
    [repeat split | reflexivity | reflexivity |].
  destruct (@retry_exhaustion
              (run [Failed 0 (VErr "Event"); Closed] (constructor two_attempts))
              1 0 [None; None])
    as (_ & (Hstatus'' & Hthis'' & _) & _);
    [repeat split | reflexivity | reflexivity |].
  destruct (Hsend (VStr "late")) as (Hthrow & _).
  split; [exact Hthis |]. split; [exact Hstatus |]. split; [exact Hthis' |].
  split; [exact Hstatus' |]. split; [exact Hthrow |].
  split; [exact Hthis'' | exact Hstatus''].
Defined.

(** ** The defaults of the constructor *)

(** C10. When [reconnectInterval] is absent or 0 the interval is 5000;
    when [reconnectAttempts] is absent or 0 the number of attempts is 10,
    and a channel built so (with [reconnectAttempts: 0] in particular)
    whose transports all close without opening makes ten reconnect
    attempts (eleven transports with the first) before the tick that
    completes it. *)
Theorem falsy_reconnect_fields_take_defaults a :
  (field_of reconnectInterval a = None \/
   field_of reconnectInterval a = Some 0%Z ->
   _reconnectInterval (constructor a) = 5000%Z) /\
  (field_of reconnectAttempts a = None \/
   field_of reconnectAttempts a = Some 0%Z ->
   _reconnectAttempts (constructor a) = 10%Z) /\
  (field_of reconnectAttempts a = None \/
   field_of reconnectAttempts a = Some 0%Z ->
   let c1 := run (Closed :: failed_attempts 10 1) (constructor a) in
   List.length (created (runtime c1)) = 11 /\
   stopped (this_ c1) = Active /\
   stopped (this_ (step (Tick 1) c1)) = Completed).
Proof.
  assert (field_of reconnectAttempts a = None \/
          field_of reconnectAttempts a = Some 0%Z ->
          _reconnectAttempts (constructor a) = 10%Z) as Hattempts.
  { intros [H | H]; unfold constructor; simpl; rewrite H; reflexivity. }
  split; [| split].
  - intros [H | H]; unfold constructor; simpl; rewrite H; reflexivity.
  - exact Hattempts.
  - intros H0.
    destruct (first_close a) as (Hat & Hthis & Hst & Hatt & Hcr).
    rewrite Hattempts in Hatt by exact H0.
    destruct (@failed_attempts_run 10 (step Closed (constructor a)) 1 0 Hat) as
      (Hat1 & Hthis1 & Hst1 & Hatt1 & Hcr1 & _); [rewrite Hatt; simpl; lia |].
    destruct (@exhausted_tick _ 1 10 Hat1) as (Hthis2 & _);
      [rewrite Hatt1, Hatt; simpl; lia |].
    cbv zeta. rewrite run_cons, Hthis2, Hthis1, Hcr1, Hcr.
    unfold Subject_complete. rewrite Hthis. repeat split.
Qed.

Lemma falsy_reconnect_fields_take_defaults_witness :
  let a := Config (mkConfig "ws://x" None None None (Some 0%Z)) in
  _reconnectInterval (constructor a) = 5000%Z /\
  _reconnectAttempts (constructor a) = 10%Z /\
  List.length
    (created (runtime (run (Closed :: failed_attempts 10 1) (constructor a)))) = 11.
Proof.
  destruct (falsy_reconnect_fields_take_defaults
              (Config (mkConfig "ws://x" None None None (Some 0%Z))))
    as (Hinterval & Hattempts & Hten).
  split; [| split].
  - apply Hinterval. left. reflexivity.
  - apply Hattempts. right. reflexivity.
  - apply Hten. right. reflexivity.
Defined.

(** ** The handle invariant *)

Lemma filter_all_out k l :
  (forall j, In j l -> j = k) ->
  List.filter (fun j => negb (j =? k)%nat) l = [].
Proof.
  induction l as [| j l IH]; intros H; simpl; [reflexivity |].
  rewrite (H j) by now left. rewrite Nat.eqb_refl. simpl.
  apply IH. intros j' Hj'. apply H. now right.
Qed.

Lemma mem_In k l : mem k l = true <-> In k l.
Proof.
  unfold mem. rewrite existsb_exists. split.
  - intros (j & Hj & He). apply Nat.eqb_eq in He. now subst.
  - intros H. exists k. split; [exact H | apply Nat.eqb_refl].
Qed.

Lemma reconnect_socket c : socket_inv c -> socket_inv (_reconnect c).
Proof. unfold socket_inv, _reconnect. simpl. auto. Qed.

Lemma connectionStatus_next_socket b c :
  socket_inv c -> socket_inv (connectionStatus_next b c).
Proof.
  intros H. unfold connectionStatus_next.
  destruct (stopped (_connectionStatus_dollar c)); [| exact H | exact H].
  match goal with |- context [same_key ?k b] => destruct (same_key k b) end;
    [exact H |].
  unfold status_subscriber.
  match goal with |- context [if ?x then _ else _] => destruct x end;
    [apply reconnect_socket |]; exact H.
Qed.

Lemma cleanSocket_socket c :
  socket_inv c ->
  socket_inv (_cleanSocket c) /\ subscribed (runtime (_cleanSocket c)) = [].
Proof.
  unfold socket_inv, _cleanSocket. intros H.
  destruct (_socket c) as [k |].
  - destruct H as (Hs & Hall). rewrite Hs. simpl.
    rewrite filter_all_out by exact Hall. auto.
  - destruct (_socketSubscription c); simpl; rewrite H; auto.
Qed.

Lemma connect_socket c : subscribed (runtime c) = [] -> socket_inv (_connect c).
Proof.
  intros H. unfold socket_inv, _connect. simpl. rewrite H.
  split; [reflexivity |]. intros j [Hj | []]. now symmetry.
Qed.

Lemma cleanReconnection_socket c :
  socket_inv c -> socket_inv (_cleanReconnection c).
Proof.
  unfold socket_inv, _cleanReconnection.
  destruct (_reconnectionSubscription c); simpl; auto.
Qed.

(** An open subscription is the subscription to the handle. *)
Lemma subscribed_is_handle c k :
  socket_inv c -> mem k (subscribed (runtime c)) = true -> _socket c = Some k.
Proof.
  unfold socket_inv. intros H Hk. apply mem_In in Hk.
  destruct (_socket c) as [k' |].
  - destruct H as (_ & Hall). now rewrite (Hall k Hk).
  - rewrite H in Hk. contradiction.
Qed.

Lemma step_socket_inv a c : socket_inv c -> socket_inv (step a c).
Proof.
  intros H. destruct a as [| | k m | k error | t | d]; simpl.
  - now apply connectionStatus_next_socket.
  - now apply connectionStatus_next_socket, cleanSocket_socket.
  - destruct (mem k (subscribed (runtime c))); exact H.
  - destruct (mem k (subscribed (runtime c))) eqn:Hk; [| exact H].
    pose proof (subscribed_is_handle c k H Hk) as Hsock.
    unfold socket_error. simpl. rewrite Hsock. simpl.
    unfold socket_inv in *. simpl. rewrite Hsock in *.
    destruct H as (Hs & Hall). split; [exact Hs |].
    intros j Hj. apply filter_In in Hj as (Hj & _). now apply Hall.
  - destruct (tick_index t (intervals (runtime c))) as [index |]; [| exact H].
    destruct (reconnection_continues index c) eqn:Hc.
    + unfold reconnection_tick. apply connect_socket. simpl.
      unfold reconnection_continues in Hc. apply andb_prop in Hc as (_ & Hn).
      unfold socket_inv in H. destruct (_socket c); [discriminate | exact H].
    + unfold reconnection_complete.
      assert (socket_inv (_cleanReconnection
                (set_runtime (unsubscribe_interval t) c))) as H'.
      { apply cleanReconnection_socket. exact H. }
      match goal with |- context [if ?x then _ else _] => destruct x end; exact H'.
  - unfold send. destruct (_socket c); exact H.
Qed.

Lemma reachable_socket_inv c : reachable c -> socket_inv c.
Proof.
  induction 1 as [a | a c _ IH].
  - unfold socket_inv. simpl. split; [reflexivity |].
    intros j [Hj | []]. now symmetry.
  - now apply step_socket_inv.
Qed.

(** ** Sessions *)




(** ** Transport errors *)

(** C2, as stated, fails. After an error received with a handle, the
    close notification that follows starts a session, and its first tick
    makes a new transport: a reconnect attempt is made after the fatal
    error. *)
Lemma reconnect_after_fatal_error :
  let e := VErr "Event" in
  let c1 := run [Opened; Failed 0 e] (constructor two_attempts) in
  let c2 := run [Closed; Tick 1] c1 in
  _socket (step Opened (constructor two_attempts)) = Some 0 /\
  stopped (this_ c1) = Errored e /\
  created (runtime c1) = [0] /\
  stopped (this_ c2) = Errored e /\
  created (runtime c2) = [0; 2] /\
  _socket c2 = Some 2.
Proof. repeat split. Qed.

(** C2, amended. The error callback of the socket subscription, called
    with a handle present on a channel that has not ended, ends the
    subject with that error, and the callback itself starts no session,
    makes no transport and keeps the handle. Called with no handle
    present, it destroys the session if one runs, starts a fresh one at
    tick 0, and leaves the subject as it is. *)
Theorem socket_error_with_and_without_handle c error :
  (_socket c <> None ->
   stopped (this_ c) = Active ->
   let c' := socket_error error c in
   stopped (this_ c') = Errored error /\
   emitted (this_ c') = emitted (this_ c) /\
   runtime c' = runtime c /\
   _reconnectionObservable c' = _reconnectionObservable c /\
   _socket c' = _socket c) /\
  (_socket c = None ->
   session_inv c ->
   let c' := socket_error error c in
   this_ c' = this_ c /\
   _reconnectionObservable c' = Some (fresh (runtime c)) /\
   intervals (runtime c') = [(fresh (runtime c), 0)] /\
   created (runtime c') = created (runtime c) /\
   _socket c' = None).
Proof.
  split.
  - intros Hs Ha. unfold socket_error.
    destruct (_socket c) eqn:Hk; [| contradiction]. simpl.
    unfold Subject_error. rewrite Ha. simpl. rewrite Hk. repeat split.
  - intros Hs Hinv. unfold socket_error. rewrite Hs. cbn [is_none]. cbv zeta.
    destruct (@cleanReconnection_session c Hinv) as (Hint & _).
    destruct (@reconnect_session (_cleanReconnection c) Hint) as (_ & Hnew).
    rewrite Hnew.
    unfold _reconnect, _cleanReconnection.
    destruct (_reconnectionSubscription c); simpl; repeat split; exact Hs.
Qed.

Lemma socket_error_with_and_without_handle_witness :
  let e := VErr "Event" in
  let connected := step Opened (constructor two_attempts) in
  let closed := step Closed (constructor two_attempts) in
  stopped (this_ (socket_error e connected)) = Errored e /\
  runtime (socket_error e connected) = runtime connected /\
  intervals (runtime closed) = [(1, 0)] /\
  intervals (runtime (socket_error e closed)) = [(2, 0)] /\
  this_ (socket_error e closed) = this_ closed.
Proof.
  destruct (socket_error_with_and_without_handle
              (step Opened (constructor two_attempts)) (VErr "Event"))
    as (Hwith & _).
  destruct (socket_error_with_and_without_handle
              (step Closed (constructor two_attempts)) (VErr "Event"))
    as (_ & Hwithout).
  destruct Hwith as (Herrored & _ & Hruntime & _); [discriminate | reflexivity |].
  destruct Hwithout as (Hthis & _ & Hfresh & _);
    [reflexivity | apply step_session_inv, constructor_session_inv |].
  split; [exact Herrored |]. split; [exact Hruntime |]. split; [reflexivity |].
  split; [exact Hfresh | exact Hthis].
Defined.

(** ** The status stream *)

Lemma distinct_from_first key src :
  match values (distinct_from key src) with
  | [] => True
  | b :: _ => same_key key b = false
  end.
Proof.
  induction src as [| n rest IH]; simpl; [exact I |].
  destruct n as [b | e |]; simpl; try exact I.
  destruct (same_key key b) eqn:Hk; [exact IH | exact Hk].
Qed.

Lemma distinct_from_no_repeat src : forall key,
  no_repeat (values (distinct_from key src)).
Proof.
  induction src as [| n rest IH]; intros key; simpl; [exact I |].
  destruct n as [b | e |]; simpl; try exact I.
  destruct (same_key key b); [apply IH |].
  simpl. split; [| apply IH].
  pose proof (distinct_from_first (Some b) rest) as Hf.
  destruct (values (distinct_from (Some b) rest)) as [| b' ?]; [exact I |].
  simpl in Hf. intros ->. now rewrite Bool.eqb_reflx in Hf.
Qed.

Lemma same_key_true key b : same_key key b = true -> key = Some b.
Proof.
  destruct key as [k |]; simpl; [| discriminate].
  intros H. apply Bool.eqb_prop in H. now subst.
Qed.

Lemma distinct_from_app vs : forall key tail,
  distinct_from key (List.map Next vs ++ tail) =
  (distinct_from key (List.map Next vs) ++ distinct_from (key_after key vs) tail)%list.
Proof.
  induction vs as [| b vs IH]; intros key tail; [reflexivity |].
  simpl List.map. simpl app. simpl distinct_from.
  destruct (same_key key b) eqn:Hk.
  - rewrite IH. apply same_key_true in Hk. subst key.
    assert (key_after (Some b) vs = key_after (Some b) (b :: vs)) as ->
      by (destruct vs; reflexivity).
    reflexivity.
  - rewrite IH.
    assert (key_after (Some b) vs = key_after key (b :: vs)) as ->
      by (destruct vs; reflexivity).
    reflexivity.
Qed.

Lemma values_app {A} (l1 l2 : list (notification A)) :
  values (l1 ++ l2) = (values l1 ++ values l2)%list.
Proof.
  induction l1 as [| n l1 IH]; simpl; [reflexivity |].
  destruct n; simpl; now rewrite IH.
Qed.

Lemma last_value_app vs b : last_value (vs ++ [b]) = Some b.
Proof.
  induction vs as [| v vs IH]; [reflexivity |].
  simpl app. simpl last_value. rewrite IH.
  destruct (vs ++ [b])%list eqn:Hl; [| reflexivity].
  now destruct vs.
Qed.

(** The last value a subscriber of [distinctUntilChanged] has received is
    the last value of its source. *)
Lemma last_received vs :
  last_value (values (distinctUntilChanged (List.map Next vs))) = last_value vs.
Proof.
  unfold distinctUntilChanged.
  induction vs as [| b vs IH] using rev_ind; [reflexivity |].
  rewrite map_app. simpl List.map at 2. rewrite distinct_from_app.
  rewrite last_value_app. simpl distinct_from.
  destruct (same_key (key_after None vs) b) eqn:Hk.
  - rewrite app_nil_r, IH. apply same_key_true in Hk.
    destruct vs; [discriminate Hk | exact Hk].
  - rewrite values_app. simpl values. apply last_value_app.
Qed.

Lemma connectionStatus_next_status b c :
  _connectionStatus_dollar (connectionStatus_next b c) =
  Subject_next b (_connectionStatus_dollar c).
Proof.
  unfold connectionStatus_next, Subject_next.
  destruct (stopped (_connectionStatus_dollar c)) eqn:Hst; try reflexivity.
  match goal with |- context [same_key ?k b] => destruct (same_key k b) end.
  - simpl. unfold Subject_next. now rewrite Hst.
  - unfold status_subscriber.
    match goal with |- context [if ?x then _ else _] => destruct x end;
      simpl; unfold Subject_next; now rewrite Hst.
Qed.

Lemma cleanSocket_status c :
  _connectionStatus_dollar (_cleanSocket c) = _connectionStatus_dollar c.
Proof. unfold _cleanSocket. destruct (_socketSubscription c); reflexivity. Qed.

(** What one more value on an active status subject brings to a
    subscriber: the value, unless it is the last one it received. *)
Lemma status_value_delivered (sj : Subject bool) k b :
  stopped sj = Active ->
  k <= List.length (emitted sj) ->
  distinctUntilChanged (subscribe k (Subject_next b sj)) =
  (distinctUntilChanged (subscribe k sj) ++
   (if same_key (last_value (values (distinctUntilChanged (subscribe k sj)))) b
    then [] else [Next b]))%list.
Proof.
  intros Ha Hk. unfold subscribe, Subject_next. rewrite Ha. simpl.
  rewrite !app_nil_r, last_received.
  rewrite skipn_app. replace (k - List.length (emitted sj)) with 0 by lia.
  simpl skipn. rewrite map_app. simpl List.map at 2.
  unfold distinctUntilChanged. rewrite distinct_from_app. simpl distinct_from.
  destruct (skipn k (emitted sj)); reflexivity.
Qed.

Lemma status_complete_delivered (sj : Subject bool) k :
  stopped sj = Active ->
  distinctUntilChanged (subscribe k (Subject_complete sj)) =
  (distinctUntilChanged (subscribe k sj) ++ [Complete])%list.
Proof.
  intros Ha. unfold subscribe, Subject_complete. rewrite Ha. simpl.
  rewrite app_nil_r. unfold distinctUntilChanged. now rewrite distinct_from_app.
Qed.

(** C3, as stated, fails twice. A close notification that follows another
    close notification (the transport of a reconnect attempt closing
    without having opened) brings no [false] to a subscriber that has
    received [false] already. And when the subject ends with an error, the
    status subject is not completed. *)
Lemma status_not_after_each_close_nor_completed_on_error :
  let c1 := run [Closed; Tick 1] (constructor two_attempts) in
  let c2 := step Closed c1 in
  let c3 := run [Opened; Failed 0 (VErr "Event")] (constructor two_attempts) in
  (connectionStatus_dollar 0 c1 = [Next false] /\
   emitted (_connectionStatus_dollar c2) = [false; false] /\
   connectionStatus_dollar 0 c2 = [Next false]) /\
  (stopped (this_ c3) = Errored (VErr "Event") /\
   stopped (_connectionStatus_dollar c3) = Active /\
   connectionStatus_dollar 0 c3 = [Next true]).
Proof. repeat split. Qed.

(** C3, amended. A subscriber of [connectionStatus$] never receives the
    same boolean twice in a row. While the status subject is active, an
    open notification brings it [true] and a close notification brings it
    [false], each only if that is not the value it received last. When the
    session ends on used-up attempts with no handle, the subject completes
    and the subscriber receives [complete]. *)
Theorem status_stream_distinct c k :
  no_repeat (values (connectionStatus_dollar k c)) /\
  (stopped (_connectionStatus_dollar c) = Active ->
   k <= List.length (emitted (_connectionStatus_dollar c)) ->
   let last := last_value (values (connectionStatus_dollar k c)) in
   connectionStatus_dollar k (step Opened c) =
     (connectionStatus_dollar k c ++
      (if same_key last true then [] else [Next true]))%list /\
   connectionStatus_dollar k (step Closed c) =
     (connectionStatus_dollar k c ++
      (if same_key last false then [] else [Next false]))%list) /\
  (forall t i,
      session_at c t i ->
      (_reconnectAttempts c <= Z.of_nat i)%Z ->
      stopped (this_ c) = Active ->
      stopped (_connectionStatus_dollar c) = Active ->
      stopped (this_ (step (Tick t) c)) = Completed /\
      connectionStatus_dollar k (step (Tick t) c) =
        (connectionStatus_dollar k c ++ [Complete])%list).
Proof.
  split; [| split].
  - apply distinct_from_no_repeat.
  - intros Ha Hk. cbv zeta. unfold connectionStatus_dollar. simpl step.
    unfold openObserver, closeObserver.
    rewrite !connectionStatus_next_status, cleanSocket_status.
    split; now apply status_value_delivered.
  - intros t i Hat Hle Hthis Hst.
    destruct (@exhausted_tick c t i Hat Hle) as (Hthis' & Hst' & _).
    unfold connectionStatus_dollar. rewrite Hthis', Hst'. split.
    + unfold Subject_complete. now rewrite Hthis.
    + now apply status_complete_delivered.
Qed.

Lemma status_stream_distinct_witness :
  let c := run (Closed :: failed_attempts 2 1) (constructor two_attempts) in
  connectionStatus_dollar 1 c = [Next false] /\
  connectionStatus_dollar 1 (step Opened c) = [Next false; Next true] /\
  connectionStatus_dollar 1 (step Closed c) = [Next false] /\
  connectionStatus_dollar 1 (step (Tick 1) c) = [Next false; Complete].
Proof.
  destruct (status_stream_distinct
              (run (Closed :: failed_attempts 2 1) (constructor two_attempts)) 1)
    as (_ & Hnext & Hend).
  destruct Hnext as (Hopen & Hclose); [reflexivity | simpl; lia |].
  destruct (Hend 1 2) as (_ & Hcomplete);
    [repeat split | simpl; lia | reflexivity | reflexivity |].
  split; [reflexivity |]. split; [exact Hopen |].
  split; [exact Hclose | exact Hcomplete].
Defined.

(** The key of the constructor's subscription is the last value of the
    status subject: that subscription is the subscriber [0] of
    [connectionStatus$]. *)
Lemma status_key_is_last c :
  reachable c -> status_key c = last_value (emitted (_connectionStatus_dollar c)).
Proof.
  assert (forall b c,
             status_key c = last_value (emitted (_connectionStatus_dollar c)) ->
             status_key (connectionStatus_next b c) =
             last_value (emitted (_connectionStatus_dollar (connectionStatus_next b c))))
    as Hnext.
  { intros b c0 H. rewrite connectionStatus_next_status.
    unfold connectionStatus_next, Subject_next.
    destruct (stopped (_connectionStatus_dollar c0)) eqn:Hst; try exact H.
    simpl. rewrite last_value_app.
    destruct (same_key (status_key c0) b) eqn:Hk.
    - simpl. now apply same_key_true.
    - unfold status_subscriber.
      match goal with |- context [if ?x then _ else _] => destruct x end;
        reflexivity. }
  induction 1 as [a | a c _ IH]; [reflexivity |].
  destruct a as [| | k m | k error | t | d]; simpl.
  - now apply Hnext.
  - apply Hnext. unfold _cleanSocket.
    destruct (_socketSubscription c); exact IH.
  - destruct (mem k (subscribed (runtime c))); exact IH.
  - destruct (mem k (subscribed (runtime c))); [| exact IH].
    unfold socket_error, _reconnect, _cleanReconnection. simpl.
    destruct (is_none (_socket c)); [| exact IH].
    destruct (_reconnectionSubscription c); exact IH.
  - destruct (tick_index t (intervals (runtime c))); [| exact IH].
    destruct (reconnection_continues n c); [exact IH |].
    unfold reconnection_complete, _cleanReconnection. simpl.
    destruct (_reconnectionSubscription c); simpl;
      destruct (is_none (_socket c)); simpl; try exact IH;
      unfold Subject_complete;
      destruct (stopped (_connectionStatus_dollar c)); exact IH.
  - unfold send. destruct (_socket c); exact IH.
Qed.

(* ===================================================================== *)
(** * Further properties of the derived views *)
(* ===================================================================== *)

(** ** One message at a time *)

Lemma get_of_nullish m k : nullish m = true -> get m k = Throw TypeError.
Proof. destruct m; try discriminate; reflexivity. Qed.

Lemma get_of_value m k : nullish m = false -> exists v, get m k = Ok v.
Proof. destruct m; try discriminate; intros _; eexists; reflexivity. Qed.

Lemma truthy_not_nullish v : truthy v = true -> nullish v = false.
Proof. destruct v; try discriminate; reflexivity. Qed.

Lemma unwrap_utf8_of_nullish m :
  nullish m = true -> unwrap_utf8 m = Throw TypeError.
Proof. destruct m; try discriminate; reflexivity. Qed.

Lemma unwrap_utf8_of_value m :
  nullish m = false -> exists n, unwrap_utf8 m = Ok n /\ nullish n = false.
Proof.
  intros Hm. unfold unwrap_utf8.
  destruct (@get_of_value m "type" Hm) as (type & ->). simpl bind.
  destruct (truthy type && is_string type "utf8"); [| now exists m].
  destruct (@get_of_value m "utf8Data" Hm) as (u & ->). simpl bind.
  destruct (truthy u) eqn:Hu; eexists; split; try reflexivity.
  - now apply truthy_not_nullish.
  - exact Hm.
Qed.

Lemma unwrap_utf8_result m n : unwrap_utf8 m = Ok n -> nullish n = false.
Proof.
  intros H. destruct (nullish m) eqn:Hm.
  - rewrite (@unwrap_utf8_of_nullish m Hm) in H. discriminate H.
  - destruct (@unwrap_utf8_of_value m Hm) as (n' & Hn' & Hnull).
    rewrite Hn' in H. now injection H as <-.
Qed.

Lemma event_filter_of_value event n :
  nullish n = false -> exists b, event_filter event n = Ok b.
Proof.
  intros Hn. unfold event_filter.
  destruct (@get_of_value n "event" Hn) as (ev & ->). simpl bind.
  match goal with |- context [if ?x then _ else _] => destruct x end;
    [| now exists false].
  destruct (@get_of_value n "data" Hn) as (d & ->). simpl bind. now eexists.
Qed.

Lemma event_filter_passed event n :
  event_filter event n = Ok true ->
  exists d, get n "data" = Ok d /\ truthy d = true.
Proof.
  intros H. apply event_filter_true in H as (d & _ & _ & _ & _ & Hd & Ht).
  now exists d.
Qed.

(** No message passes the filter of a reserved name. *)
Lemma event_filter_reserved event n :
  event = "error" \/ event = "close" ->
  nullish n = false -> event_filter event n = Ok false.
Proof.
  intros Hr Hn. destruct (@event_filter_of_value event n Hn) as ([|] & Hb);
    [| exact Hb].
  apply event_filter_true in Hb as (d & _ & _ & Herr & Hcl & _).
  destruct Hr; contradiction.
Qed.

Lemma message_dollar_next event m src n :
  unwrap_utf8 m = Ok n ->
  _message_dollar event (Next m :: src) =
  match event_filter event n with
  | Ok true => Next n :: _message_dollar event src
  | Ok false => _message_dollar event src
  | Throw e => [Error e]
  end.
Proof. intros H. unfold _message_dollar. simpl. rewrite H. reflexivity. Qed.

Lemma message_dollar_poison event m src :
  nullish m = true -> _message_dollar event (Next m :: src) = [Error TypeError].
Proof.
  intros H. unfold _message_dollar. simpl.
  now rewrite (@unwrap_utf8_of_nullish m H).
Qed.

(** What a message that is not [null] or [undefined] adds in front of what
    the later notifications give: nothing, or its [data]. *)
Lemma views_next event m :
  nullish m = false ->
  exists ds,
    (ds = [] \/ exists n d, ds = [d] /\ unwrap_utf8 m = Ok n /\
                           event_filter event n = Ok true /\
                           get n "data" = Ok d) /\
    forall src,
      on_dollar event (Next m :: src) =
        (List.map Next ds ++ on_dollar event src)%list /\
      on event (Next m :: src) =
        (List.map cb_data ds ++ on event src)%list.
Proof.
  intros Hm. destruct (@unwrap_utf8_of_value m Hm) as (n & Hn & Hnull).
  destruct (@event_filter_of_value event n Hnull) as ([|] & Hb).
  - destruct (@event_filter_passed event n Hb) as (d & Hd & _).
    exists [d]. split; [right; now exists n, d |].
    intros src. unfold on_dollar, on.
    rewrite (@message_dollar_next event m src n Hn), Hb. simpl. rewrite Hd. auto.
  - exists []. split; [now left |].
    intros src. unfold on_dollar, on.
    rewrite (@message_dollar_next event m src n Hn), Hb. auto.
Qed.

Lemma views_poison event m src :
  nullish m = true ->
  on_dollar event (Next m :: src) = [Error TypeError] /\
  on event (Next m :: src) =
    (if event =? "error" then [cb_error TypeError] else []).
Proof.
  intros Hm. unfold on_dollar, on.
  rewrite (@message_dollar_poison event m src Hm). simpl.
  destruct (event =? "error"); auto.
Qed.

Unset Implicit Arguments.

(** ** [on] and [on$] *)

(** X1. [on(event, cb)] and [on$(event)] deliver the same: the arguments
    of the calls [cb(message.data)] are, in order, the values that
    [on$(event)] emits on the same stream. *)
Theorem on_calls_are_on_dollar_values event src :
  data_calls (on event src) = values (on_dollar event src).
Proof.
  induction src as [| n src IH]; [reflexivity |].
  destruct n as [m | e |].
  - destruct (nullish m) eqn:Hm.
    + destruct (@views_poison event m src Hm) as (-> & ->).
      destruct (event =? "error"); reflexivity.
    + destruct (@views_next event m Hm) as (ds & _ & Hsrc).
      destruct (Hsrc src) as (-> & ->).
      rewrite values_app. clear Hsrc.
      induction ds as [| d ds IHds]; [exact IH |].
      simpl. now rewrite IHds.
  - unfold on, on_dollar, _message_dollar. simpl.
    destruct (event =? "error"); reflexivity.
  - unfold on, on_dollar, _message_dollar. simpl.
    destruct (event =? "close"); reflexivity.
Qed.

Lemma views_grow event m src :
  nullish m = false ->
  (forall y, In y (on_dollar event src) -> In y (on_dollar event (Next m :: src))) /\
  (forall y, In y (on event src) -> In y (on event (Next m :: src))).
Proof.
  intros Hm. destruct (@views_next event m Hm) as (ds & _ & Hsrc).
  destruct (Hsrc src) as (-> & ->).
  split; intros y Hy; apply in_or_app; now right.
Qed.

(** X2. A message that meets the conditions of [_message$(event)] is
    delivered, by [on$(event)] and by [on(event, cb)], when no message
    before it was [null] or [undefined]. *)
Theorem matching_message_is_delivered event ms message normalized d rest :
  all_values ms = true ->
  unwrap_utf8 message = Ok normalized ->
  get normalized "event" = Ok (VStr event) ->
  event <> EmptyString -> event <> "error" -> event <> "close" ->
  get normalized "data" = Ok d ->
  truthy d = true ->
  In (Next d) (on_dollar event (List.map Next ms ++ Next message :: rest)) /\
  In (cb_data d) (on event (List.map Next ms ++ Next message :: rest)).
Proof.
  intros Hms Hn Hev Hne Herr Hcl Hd Ht.
  assert (event_filter event normalized = Ok true) as Hf.
  { apply event_filter_true. exists d. auto 10. }
  induction ms as [| x ms IH].
  - simpl. unfold on_dollar, on.
    rewrite (@message_dollar_next event message rest normalized Hn), Hf.
    simpl. rewrite Hd. split; now left.
  - simpl in Hms. apply andb_prop in Hms as (Hx & Hms).
    apply negb_true_iff in Hx.
    destruct (IH Hms) as (IH1 & IH2).
    destruct (@views_grow event x (List.map Next ms ++ Next message :: rest) Hx)
      as (G1 & G2).
    split; [now apply G1 | now apply G2].
Qed.

Lemma matching_message_is_delivered_witness :
  In (Next (VStr "hi"))
     (on_dollar "chat"
        [Next (VStr "noise"); Next chat_envelope; Next VNull]) /\
  In (cb_data (VStr "hi"))
     (on "chat" [Next (VStr "noise"); Next chat_envelope; Next VNull]).
Proof.
  apply (matching_message_is_delivered "chat" [VStr "noise"] chat_envelope
           (VObj [("event", VStr "chat"); ("data", VStr "hi")])
           (VStr "hi") [Next VNull]);
    try reflexivity; discriminate.
Defined.

(** X3. A message that is [null] or [undefined] ends the stream of
    [on$(event)] with a [TypeError]: what came before it is delivered,
    nothing that comes after it is. Of the callbacks given to [on], only
    the one for ["error"] is called with that error. *)
Theorem nullish_message_ends_the_views event ms m rest :
  all_values ms = true ->
  nullish m = true ->
  on_dollar event (List.map Next ms ++ Next m :: rest) =
    (List.map Next (values (on_dollar event (List.map Next ms)))
     ++ [Error TypeError])%list /\
  on event (List.map Next ms ++ Next m :: rest) =
    (List.map cb_data (values (on_dollar event (List.map Next ms)))
     ++ (if event =? "error" then [cb_error TypeError] else []))%list.
Proof.
  intros Hms Hm. induction ms as [| x ms IH].
  - simpl List.map. simpl app.
    destruct (@views_poison event m rest Hm) as (-> & ->).
    split; reflexivity.
  - simpl in Hms. apply andb_prop in Hms as (Hx & Hms).
    apply negb_true_iff in Hx.
    destruct (IH Hms) as (IH1 & IH2).
    destruct (@views_next event x Hx) as (ds & _ & Hsrc).
    simpl List.map. simpl app.
    destruct (Hsrc (List.map Next ms ++ Next m :: rest)%list) as (-> & ->).
    destruct (Hsrc (List.map Next ms)) as (-> & _).
    rewrite IH1, IH2, values_app, !map_app, <- !app_assoc.
    assert (values (List.map (@Next value) ds) = ds) as ->.
    { clear. induction ds as [| d ds IHds]; [reflexivity | simpl; now rewrite IHds]. }
    split; reflexivity.
Qed.

Lemma nullish_message_ends_the_views_witness :
  on_dollar "chat"
    [Next (event_data "chat" (VStr "a")); Next VNull;
     Next (event_data "chat" (VStr "b"))]
  = [Next (VStr "a"); Error TypeError] /\
  on "error"
    [Next (event_data "chat" (VStr "a")); Next VNull;
     Next (event_data "chat" (VStr "b"))]
  = [cb_error TypeError].
Proof.
  destruct (nullish_message_ends_the_views "chat"
              [event_data "chat" (VStr "a")] VNull
              [Next (event_data "chat" (VStr "b"))])
    as (Hdollar & _); [reflexivity | reflexivity |].
  destruct (nullish_message_ends_the_views "error"
              [event_data "chat" (VStr "a")] VNull
              [Next (event_data "chat" (VStr "b"))])
    as (_ & Hon); [reflexivity | reflexivity |].
  split; [exact Hdollar | exact Hon].
Defined.

Lemma on_reserved_skips event ms tail :
  event = "error" \/ event = "close" ->
  all_values ms = true ->
  on event (List.map Next ms ++ tail) = on event tail.
Proof.
  intros Hr Hms. induction ms as [| x ms IH]; [reflexivity |].
  simpl in Hms. apply andb_prop in Hms as (Hx & Hms).
  apply negb_true_iff in Hx.
  destruct (@unwrap_utf8_of_value x Hx) as (n & Hn & Hnull).
  simpl List.map. simpl app. unfold on in *.
  rewrite (@message_dollar_next event x _ n Hn).
  rewrite (@event_filter_reserved event n Hr Hnull). now apply IH.
Qed.

(** X4. The reserved names. On messages that are values,
    [on("close", cb)] calls [cb()] once when the stream completes and
    makes no other call; [on("error", cb)] calls [cb(error)] once when
    the stream fails and makes no other call; and under any other name
    every call of the callback is a call [cb(message.data)]. *)
Theorem on_reserved_names_follow_the_end event ms st call src :
  (all_values ms = true ->
   on "close" (List.map Next ms ++ terminal st) =
     match st with Completed => [cb_void] | _ => [] end /\
   on "error" (List.map Next ms ++ terminal st) =
     match st with Errored e => [cb_error e] | _ => [] end) /\
  (event <> "error" -> event <> "close" ->
   In call (on event src) -> exists d, call = cb_data d).
Proof.
  split.
  - intros Hms.
    rewrite !on_reserved_skips by auto.
    destruct st; split; reflexivity.
  - intros Herr Hcl Hin. unfold on in Hin.
    apply in_flat_map in Hin as (n & _ & Hn).
    destruct n as [m | e |]; simpl in Hn.
    + destruct (get m "data"); simpl in Hn; [| contradiction].
      destruct Hn as [<- | []]. now eexists.
    + apply String.eqb_neq in Herr. rewrite Herr in Hn. contradiction.
    + apply String.eqb_neq in Hcl. rewrite Hcl in Hn. contradiction.
Qed.

Lemma on_reserved_names_follow_the_end_witness :
  on "close" [Next (event_data "close" (VStr "x")); Complete] = [cb_void] /\
  on "error" [Next (event_data "close" (VStr "x")); Complete] = [].
Proof.
  destruct (on_reserved_names_follow_the_end "chat"
              [event_data "close" (VStr "x")] Completed cb_void [])
    as (Hend & _).
  destruct Hend as (Hclose & Herror); [reflexivity |].
  split; [exact Hclose | exact Herror].
Defined.

(** ** [onClose$], [onError$] and [onBytes$] *)

Lemma onClose_dollar_values vs tail :
  onClose_dollar (List.map Next vs ++ tail) = onClose_dollar tail.
Proof.
  unfold onClose_dollar. rewrite flat_map_app.
  induction vs as [| v vs IH]; [reflexivity | exact IH].
Qed.

(** X5. [onClose$()] emits once, without a payload, and completes, when
    the subject has completed; it emits nothing while the subject is
    active and nothing when the subject has failed. This holds for a
    subscriber that came at any time, also after the end: then it is the
    error the subject holds, if any, that keeps [onClose$()] silent. *)
Theorem onClose_dollar_fires_on_completion_only (sj : Subject value) k :
  onClose_dollar (subscribe k sj) =
  match stopped sj with
  | Completed => [Next tt; Complete]
  | _ => []
  end /\
  onClose_dollar (subscribe_stopped sj) =
  match thrownError sj with
  | Some _ => []
  | None =>
      match stopped sj with
      | Active => []
      | _ => [Next tt; Complete]
      end
  end.
Proof.
  split.
  - unfold subscribe. rewrite onClose_dollar_values.
    destruct (stopped sj); reflexivity.
  - unfold subscribe_stopped.
    destruct (thrownError sj); [reflexivity |].
    destruct (stopped sj); reflexivity.
Qed.

(** X6. While the subject has not failed, [onError$()] is the stream of
    the subject itself: it emits every inbound message and completes when
    the subject completes. *)
Theorem onError_dollar_carries_the_messages (sj : Subject value) k :
  (forall e, stopped sj <> Errored e) ->
  onError_dollar (subscribe k sj) = subscribe k sj.
Proof.
  intros He. unfold onError_dollar, subscribe. rewrite catchError_values.
  destruct (stopped sj) as [| e |]; try reflexivity.
  now destruct (He e).
Qed.

Lemma onError_dollar_carries_the_messages_witness :
  let c := run [Opened; Received 0 (VStr "a"); Received 0 (VStr "b")]
               (constructor (Url "ws://x")) in
  onError_dollar (subscribe 0 (this_ c)) = [Next (VStr "a"); Next (VStr "b")].
Proof.
  apply (onError_dollar_carries_the_messages
           (this_ (run [Opened; Received 0 (VStr "a"); Received 0 (VStr "b")]
                       (constructor (Url "ws://x")))) 0).
  discriminate.
Defined.

Lemma unwrap_binary_of_value m :
  nullish m = false ->
  exists r,
    unwrap_binary m = Ok r /\
    (binary_envelope m r \/ (r = m /\ forall b, ~ binary_envelope m b)).
Proof.
  intros Hm. unfold unwrap_binary, binary_envelope.
  destruct (@get_of_value m "type" Hm) as (type & Htype). rewrite Htype.
  simpl bind.
  destruct (truthy type && is_string type "binary") eqn:Hc.
  - apply andb_prop in Hc as (_ & Hb). apply is_string_eq in Hb. subst type.
    destruct (@get_of_value m "binaryData" Hm) as (b & Hbd). rewrite Hbd.
    simpl bind. destruct (truthy b) eqn:Ht.
    + exists b. split; [reflexivity | left; auto].
    + exists m. split; [reflexivity | right]. split; [reflexivity |].
      intros b' (_ & Hb' & Ht'). injection Hb' as <-. congruence.
  - exists m. split; [reflexivity | right]. split; [reflexivity |].
    intros b (Hb & _). injection Hb as ->. discriminate Hc.
Qed.

(** X7. [onBytes$()] and [onBytes(cb)] hand on one payload for each
    message that is a value, in the order of the messages: the
    [binaryData] of a message that is a binary envelope (its [type] is
    ["binary"] and its [binaryData] is truthy), and the message itself
    exactly when it is no binary envelope (so a text envelope is not
    unwrapped). The end of the subject is passed on. *)
Theorem onBytes_one_payload_per_message ms st :
  all_values ms = true ->
  exists rs,
    onBytes_dollar (List.map Next ms ++ terminal st) =
      (List.map Next rs ++ terminal st)%list /\
    onBytes (List.map Next ms ++ terminal st) = List.map cb_data rs /\
    Forall2 (fun m r =>
               binary_envelope m r \/
               (r = m /\ forall b, ~ binary_envelope m b)) ms rs.
Proof.
  intros Hms.
  assert (exists rs,
             onBytes_dollar (List.map Next ms ++ terminal st) =
               (List.map Next rs ++ terminal st)%list /\
             Forall2 (fun m r =>
                        binary_envelope m r \/
                        (r = m /\ forall b, ~ binary_envelope m b)) ms rs)
    as (rs & Hrs & Hall).
  { induction ms as [| x ms IH].
    - exists []. split; [| constructor].
      destruct st; reflexivity.
    - simpl in Hms. apply andb_prop in Hms as (Hx & Hms).
      apply negb_true_iff in Hx.
      destruct (IH Hms) as (rs & Hrs & Hall).
      destruct (@unwrap_binary_of_value x Hx) as (r & Hr & Hcase).
      exists (r :: rs). split; [| now constructor].
      unfold onBytes_dollar in *. simpl. rewrite Hr, Hrs. reflexivity. }
  exists rs. repeat split; try assumption.
  unfold onBytes. rewrite Hrs, values_app.
  assert (values (@terminal value st) = []) as -> by (destruct st; reflexivity).
  rewrite app_nil_r. f_equal.
  clear. induction rs as [| r rs IH]; [reflexivity | simpl; now rewrite IH].
Qed.

Lemma onBytes_one_payload_per_message_witness :
  onBytes
    (List.map Next
       [VObj [("type", VStr "binary"); ("binaryData", VBuffer [Byte.x74])];
        chat_envelope] ++ terminal Completed)
  = [cb_data (VBuffer [Byte.x74]); cb_data chat_envelope].
Proof.
  destruct (onBytes_one_payload_per_message
              [VObj [("type", VStr "binary"); ("binaryData", VBuffer [Byte.x74])];
               chat_envelope] Completed) as (rs & _ & Hcalls & Hall);
    [reflexivity |].
  rewrite Hcalls.
  inversion Hall as [| m1 r1 ms1 rs1 H1 Hrest]; subst.
  inversion Hrest as [| m2 r2 ms2 rs2 H2 Hnil]; subst.
  inversion Hnil; subst.
  destruct H1 as [(_ & Hpayload & _) | (_ & Hnone)].
  - injection Hpayload as <-.
    destruct H2 as [(Htype & _) | (-> & _)]; [discriminate Htype | reflexivity].
  - destruct (Hnone (VBuffer [Byte.x74])). repeat split.
Defined.

(** ** [emit] and the codec *)

Lemma on_dollar_event_data event d :
  on_dollar event [Next (event_data event d)] =
  if deliverable event d then [Next d] else [].
Proof.
  unfold on_dollar, _message_dollar, deliverable, event_data. simpl.
  unfold event_filter. simpl. rewrite String.eqb_refl.
  destruct (event =? EmptyString), (event =? "error"), (event =? "close");
    simpl; try reflexivity.
  destruct (truthy d); reflexivity.
Qed.

Lemma plain_event_data event d :
  RefJSON.plain d = true -> RefJSON.plain (event_data event d) = true.
Proof. intros H. simpl. now rewrite H. Qed.

(** X8. [emit(event, data)] hands the pair [{ event, data }] to the
    current socket. When that pair comes back from a peer (serialized
    with [_serializer], deserialized with [_deserializer]), [on$(event)]
    delivers [data] if the name is not empty, not ["error"], not
    ["close"] and [data] is truthy; otherwise it delivers nothing: an
    emitted [0], [false], empty string or [null] is not received. *)
Theorem emitted_pair_comes_back {J : JSON} event d c k :
  _socket c = Some k ->
  (exists c',
      emit event d c = Ok c' /\
      outbox (runtime c') = (outbox (runtime c) ++ [(k, event_data event d)])%list) /\
  (JSON_parse (JSON_stringify (event_data event d)) = Ok (event_data event d) ->
   exists m,
     _deserializer (mkMessageEvent (_serializer (event_data event d))) = Ok m /\
     on_dollar event [Next m] = if deliverable event d then [Next d] else []) /\
  (RefJSON.plain d = true ->
   exists m,
     @_deserializer RefJSON.json
       (mkMessageEvent (@_serializer RefJSON.json (event_data event d))) = Ok m /\
     on_dollar event [Next m] = if deliverable event d then [Next d] else []).
Proof.
  intros Hk. split; [| split].
  - unfold emit, send. rewrite Hk. eexists. split; reflexivity.
  - intros Hrt. exists (event_data event d). split.
    + unfold event_data in *. rewrite deserializer_cases.
      cbn [data _serializer typeof_string isBuffer orb]. now rewrite Hrt.
    + apply on_dollar_event_data.
  - intros Hp. exists (event_data event d). split.
    + apply reference_roundtrip. now apply plain_event_data.
    + apply on_dollar_event_data.
Qed.

Lemma emitted_pair_comes_back_witness :
  exists m,
    @_deserializer RefJSON.json
      (mkMessageEvent (@_serializer RefJSON.json (event_data "count" (VNum 0))))
    = Ok m /\
    on_dollar "count" [Next m] = [].
Proof.
  destruct (@emitted_pair_comes_back RefJSON.json "count" (VNum 0)
              (constructor (Url "ws://x")) 0) as (_ & _ & Hecho);
    [reflexivity |].
  apply Hecho. reflexivity.
Defined.

(** ** What arrives, with the JSON of ECMAScript *)

(** X9. A string is sent as it is, and what arrives is what [JSON.parse]
    makes of it: the text of a plain value arrives as that value, not as
    the string. So the strings [12], [1e2], [ [1, 2] ] and [null] arrive
    as the numbers 12 and 100, an array and [null]; a string that is no
    JSON text, such as [007], [hello] or a quoted text with a line feed
    in it, arrives as the string. *)
Theorem json_text_comes_back_decoded :
  (forall v, RefJSON.plain v = true ->
     @_deserializer RefJSON.json
       (mkMessageEvent (@_serializer RefJSON.json (VStr (RefJSON.print v))))
     = Ok v) /\
  List.map (fun s => @_deserializer RefJSON.json
                       (mkMessageEvent (@_serializer RefJSON.json (VStr s))))
    ["12"; "1e2"; " [1, 2] "; "null"; "007"; "hello";
     String RefJSON.dquote
       (String "a" (String "010" (String "b" (String RefJSON.dquote EmptyString))))]
  = [Ok (VNum 12); Ok (VNum 100); Ok (VArr [VNum 1; VNum 2]); Ok VNull;
     Ok (VStr "007"); Ok (VStr "hello");
     Ok (VStr (String RefJSON.dquote
                 (String "a" (String "010"
                    (String "b" (String RefJSON.dquote EmptyString))))))].
Proof.
  split; [| vm_compute; reflexivity].
  intros v Hp. rewrite deserializer_cases.
  cbn [data _serializer typeof_string isBuffer orb].
  change (@JSON_parse RefJSON.json (VStr (RefJSON.print v)))
    with (RefJSON.parse (VStr (RefJSON.print v))).
  assert (RefJSON.stringify v = VStr (RefJSON.print v)) as <-
    by (destruct v; try discriminate Hp; reflexivity).
  now rewrite (RefJSONFacts.parse_stringify v Hp).
Qed.

Lemma json_text_comes_back_decoded_witness :
  let v := VObj [("n", VArr [VNum 1; VStr "x"; VNull])] in
  RefJSON.plain v = true /\
  @_deserializer RefJSON.json
    (mkMessageEvent (@_serializer RefJSON.json (VStr (RefJSON.print v))))
  = Ok v.
Proof.
  split; [reflexivity |].
  apply (proj1 json_text_comes_back_decoded). reflexivity.
Defined.

(** X20. A binary frame reaches the views as it is: [_deserializer]
    returns an [ArrayBuffer] and a [Blob] unchanged (what [JSON.parse]
    reads of them is no JSON text), [onBytes$] delivers them as they are
    and [on$] delivers nothing for them. *)
Theorem binary_frame_is_delivered_as_it_is b type :
  (@_deserializer RefJSON.json (mkMessageEvent (VArrayBuffer b))
   = Ok (VArrayBuffer b) /\
   onBytes_dollar [Next (VArrayBuffer b)] = [Next (VArrayBuffer b)] /\
   forall event, on_dollar event [Next (VArrayBuffer b)] = []) /\
  (@_deserializer RefJSON.json (mkMessageEvent (VBlob type b))
   = Ok (VBlob type b) /\
   onBytes_dollar [Next (VBlob type b)] = [Next (VBlob type b)] /\
   forall event, on_dollar event [Next (VBlob type b)] = []).
Proof.
  split; (split; [reflexivity | split]).
  - reflexivity.
  - reflexivity.
  - unfold onBytes_dollar, unwrap_binary. simpl.
    destruct (type =? EmptyString), (type =? "binary"); reflexivity.
  - intros event. unfold on_dollar, _message_dollar, unwrap_utf8. simpl.
    destruct (type =? EmptyString), (type =? "utf8"); reflexivity.
Qed.

(** X21. What does not come back from [_deserializer] after
    [_serializer]: a member that is [undefined] is dropped, a member
    that is [NaN] comes back [null], a member that is an [ArrayBuffer]
    comes back an empty object, and [undefined] itself is not encoded
    and comes back [undefined]. *)
Theorem members_json_does_not_keep k b :
  @_deserializer RefJSON.json
    (mkMessageEvent (@_serializer RefJSON.json (VObj [(k, VUndefined)])))
  = Ok (VObj []) /\
  @_deserializer RefJSON.json
    (mkMessageEvent (@_serializer RefJSON.json (VObj [(k, VDouble S754_nan)])))
  = Ok (VObj [(k, VNull)]) /\
  @_deserializer RefJSON.json
    (mkMessageEvent (@_serializer RefJSON.json (VObj [(k, VArrayBuffer b)])))
  = Ok (VObj [(k, VObj [])]) /\
  @_serializer RefJSON.json VUndefined = VUndefined /\
  @_deserializer RefJSON.json
    (mkMessageEvent (@_serializer RefJSON.json VUndefined))
  = Ok VUndefined.
Proof.
  assert (forall v, RefJSON.plain v = true ->
            RefJSON.plain (VObj [(k, v)]) = true) as Hplain.
  { intros v Hv. simpl. rewrite Hv. simpl.
    destruct (RefJSON.array_index k); reflexivity. }
  split; [reflexivity | split; [| split; [| split; reflexivity]]].
  - change (@_deserializer RefJSON.json
              (mkMessageEvent (@_serializer RefJSON.json (VObj [(k, VNull)])))
            = Ok (VObj [(k, VNull)])).
    apply reference_roundtrip, Hplain. reflexivity.
  - change (@_deserializer RefJSON.json
              (mkMessageEvent (@_serializer RefJSON.json (VObj [(k, VObj [])])))
            = Ok (VObj [(k, VObj [])])).
    apply reference_roundtrip, Hplain. reflexivity.
Qed.

(* ===================================================================== *)
(** * Further properties of the reconnection machine *)
(* ===================================================================== *)

(** ** What the methods leave alone *)

Lemma connectionStatus_next_this b c :
  this_ (connectionStatus_next b c) = this_ c.
Proof.
  unfold connectionStatus_next.
  destruct (stopped (_connectionStatus_dollar c)); try reflexivity.
  match goal with |- context [same_key ?k b] => destruct (same_key k b) end;
    [reflexivity |].
  unfold status_subscriber.
  match goal with |- context [if ?x then _ else _] => destruct x end;
    reflexivity.
Qed.

Lemma cleanSocket_this c : this_ (_cleanSocket c) = this_ c.
Proof. unfold _cleanSocket. destruct (_socketSubscription c); reflexivity. Qed.

Lemma cleanReconnection_fields c :
  this_ (_cleanReconnection c) = this_ c /\
  _connectionStatus_dollar (_cleanReconnection c) = _connectionStatus_dollar c /\
  _socket (_cleanReconnection c) = _socket c /\
  _reconnectAttempts (_cleanReconnection c) = _reconnectAttempts c /\
  created (runtime (_cleanReconnection c)) = created (runtime c) /\
  outbox (runtime (_cleanReconnection c)) = outbox (runtime c) /\
  subscribed (runtime (_cleanReconnection c)) = subscribed (runtime c) /\
  fresh (runtime (_cleanReconnection c)) = fresh (runtime c).
Proof.
  unfold _cleanReconnection.
  destruct (_reconnectionSubscription c); repeat split.
Qed.

Lemma reconnection_complete_fields c :
  this_ (reconnection_complete c) =
    (if is_none (_socket c) then Subject_complete (this_ c) else this_ c) /\
  _connectionStatus_dollar (reconnection_complete c) =
    (if is_none (_socket c) then Subject_complete (_connectionStatus_dollar c)
     else _connectionStatus_dollar c) /\
  _socket (reconnection_complete c) = _socket c /\
  _reconnectionObservable (reconnection_complete c) = None /\
  _reconnectAttempts (reconnection_complete c) = _reconnectAttempts c /\
  created (runtime (reconnection_complete c)) = created (runtime c) /\
  outbox (runtime (reconnection_complete c)) = outbox (runtime c) /\
  subscribed (runtime (reconnection_complete c)) = subscribed (runtime c).
Proof.
  unfold reconnection_complete, _cleanReconnection.
  destruct (_reconnectionSubscription c); simpl;
    destruct (_socket c) eqn:Hs; simpl; rewrite ?Hs; repeat split.
Qed.

Lemma subject_next_ended {A} (v : A) (sj : Subject A) :
  stopped sj <> Active -> Subject_next v sj = sj.
Proof. unfold Subject_next. destruct (stopped sj); [contradiction | auto ..]. Qed.

Lemma subject_error_ended {A} e (sj : Subject A) :
  stopped sj <> Active ->
  emitted (Subject_error e sj) = emitted sj /\
  stopped (Subject_error e sj) = stopped sj.
Proof. unfold Subject_error. destruct (stopped sj); [contradiction | auto ..]. Qed.

Lemma subject_error_thrown {A} e (sj : Subject A) :
  thrownError (Subject_error e sj) = Some e.
Proof. unfold Subject_error. destruct (stopped sj); reflexivity. Qed.

Lemma subject_complete_ended {A} (sj : Subject A) :
  stopped sj <> Active -> Subject_complete sj = sj.
Proof. unfold Subject_complete. destruct (stopped sj); [contradiction | auto ..]. Qed.

Lemma step_keeps_ended_subject a c :
  stopped (this_ c) <> Active ->
  emitted (this_ (step a c)) = emitted (this_ c) /\
  stopped (this_ (step a c)) = stopped (this_ c).
Proof.
  intros He. destruct a as [| | k m | k error | t | d].
  - change (step Opened c) with (connectionStatus_next true c).
    now rewrite connectionStatus_next_this.
  - change (step Closed c) with (connectionStatus_next false (_cleanSocket c)).
    now rewrite connectionStatus_next_this, cleanSocket_this.
  - simpl. destruct (mem k (subscribed (runtime c))); [| now split].
    unfold socket_message. simpl. now rewrite subject_next_ended.
  - simpl. destruct (mem k (subscribed (runtime c))); [| now split].
    unfold socket_error. simpl.
    destruct (is_none (_socket c)).
    + unfold _reconnect, _cleanReconnection. simpl.
      destruct (_reconnectionSubscription c); now split.
    + simpl. now apply subject_error_ended.
  - simpl. destruct (tick_index t (intervals (runtime c))); [| now split].
    destruct (reconnection_continues n c); [now split |].
    destruct (reconnection_complete_fields (set_runtime (unsubscribe_interval t) c))
      as (-> & _).
    simpl. destruct (is_none (_socket c)); [| now split].
    now rewrite subject_complete_ended.
  - simpl. unfold send. destruct (_socket c); now split.
Qed.

Lemma step_keeps_ended_status a c :
  stopped (_connectionStatus_dollar c) <> Active ->
  _connectionStatus_dollar (step a c) = _connectionStatus_dollar c.
Proof.
  intros He. destruct a as [| | k m | k error | t | d]; simpl.
  - unfold openObserver. rewrite connectionStatus_next_status.
    now apply subject_next_ended.
  - unfold closeObserver.
    rewrite connectionStatus_next_status, cleanSocket_status.
    now apply subject_next_ended.
  - destruct (mem k (subscribed (runtime c))); reflexivity.
  - destruct (mem k (subscribed (runtime c))); [| reflexivity].
    unfold socket_error. simpl.
    destruct (is_none (_socket c)); [| reflexivity].
    unfold _reconnect, _cleanReconnection. simpl.
    destruct (_reconnectionSubscription c); reflexivity.
  - destruct (tick_index t (intervals (runtime c))); [| reflexivity].
    destruct (reconnection_continues n c); [reflexivity |].
    destruct (reconnection_complete_fields (set_runtime (unsubscribe_interval t) c))
      as (_ & -> & _).
    simpl. destruct (is_none (_socket c)); [| reflexivity].
    now apply subject_complete_ended.
  - unfold send. destruct (_socket c); reflexivity.
Qed.

(** X10. Once the subject has ended, by an error or by completion, no
    action delivers anything more to the subscribers it had: whatever
    happens afterwards (notifications of the transport, ticks,
    reconnections, sends), the values and the terminal notification they
    have received stay as they are. The status subject, once ended, does
    not change at all. What can still change is the error held for the
    subscribers to come: an error that a transport reports while a handle
    exists replaces it, on an ended subject too. *)
Theorem ended_subjects_stay_as_they_are c l k :
  (stopped (this_ c) <> Active ->
   emitted (this_ (run l c)) = emitted (this_ c) /\
   stopped (this_ (run l c)) = stopped (this_ c) /\
   subscribe k (this_ (run l c)) = subscribe k (this_ c)) /\
  (stopped (_connectionStatus_dollar c) <> Active ->
   _connectionStatus_dollar (run l c) = _connectionStatus_dollar c /\
   connectionStatus_dollar k (run l c) = connectionStatus_dollar k c) /\
  (forall j error,
      mem j (subscribed (runtime c)) = true ->
      _socket c <> None ->
      subscribe_stopped (this_ (step (Failed j error) c)) = [Error error]).
Proof.
  split; [| split].
  - intros He.
    assert (emitted (this_ (run l c)) = emitted (this_ c) /\
            stopped (this_ (run l c)) = stopped (this_ c)) as (E1 & E2).
    { revert c He. induction l as [| a l IH]; intros c He; [now split |].
      destruct (step_keeps_ended_subject a c He) as (H1 & H2).
      rewrite run_cons.
      destruct (IH (step a c)) as (I1 & I2); [now rewrite H2 |].
      now rewrite I1, I2, H1, H2. }
    unfold subscribe. now rewrite E1, E2.
  - intros He.
    assert (_connectionStatus_dollar (run l c) = _connectionStatus_dollar c) as E.
    { revert c He. induction l as [| a l IH]; intros c He; [reflexivity |].
      rewrite run_cons, IH; rewrite step_keeps_ended_status; auto. }
    unfold connectionStatus_dollar. now rewrite E.
  - intros j error Hj Hs. simpl. rewrite Hj.
    unfold socket_error. simpl.
    destruct (_socket c); [| contradiction]. simpl.
    unfold subscribe_stopped. now rewrite subject_error_thrown.
Qed.

Lemma ended_subjects_stay_as_they_are_witness :
  let c := run [Opened; Received 0 (VStr "a"); Failed 0 (VErr "Event")]
               (constructor two_attempts) in
  let c' := run [Closed; Tick 1; Opened; Received 2 (VStr "b");
                 Failed 2 (VErr "Second")] c in
  subscribe 0 (this_ c') = [Next (VStr "a"); Error (VErr "Event")] /\
  subscribe_stopped (this_ c) = [Error (VErr "Event")] /\
  subscribe_stopped (this_ c') = [Error (VErr "Second")].
Proof.
  destruct (ended_subjects_stay_as_they_are
              (run [Opened; Received 0 (VStr "a"); Failed 0 (VErr "Event")]
                   (constructor two_attempts))
              [Closed; Tick 1; Opened; Received 2 (VStr "b");
               Failed 2 (VErr "Second")] 0) as (Hthis & _).
  destruct Hthis as (_ & _ & Hsame); [discriminate |].
  split; [exact Hsame | split; reflexivity].
Defined.

(** ** After the end *)

Lemma subject_complete_not_active {A} (sj : Subject A) :
  stopped (Subject_complete sj) <> Active.
Proof. unfold Subject_complete. destruct (stopped sj) eqn:E; simpl; congruence. Qed.

Lemma cleanSocket_without_handle c :
  _socket c = None -> subscribed (runtime c) = [] -> _cleanSocket c = c.
Proof.
  intros Hk Hs. destruct c as [? ? ? ? ? sub ? ? ? ? r]. destruct r.
  simpl in *. subst. unfold _cleanSocket. destruct sub; reflexivity.
Qed.

(** A channel whose status subject has completed does not move. *)
Lemma completed_channel_step a c :
  session_inv c -> socket_inv c -> status_inv c ->
  stopped (_connectionStatus_dollar c) = Completed ->
  step a c = c.
Proof.
  intros Hsess Hsock Hst E.
  unfold status_inv in Hst. rewrite E in Hst. destruct Hst as (Hk & Ho & _).
  unfold session_inv in Hsess. rewrite Ho in Hsess.
  unfold socket_inv in Hsock. rewrite Hk in Hsock.
  destruct a as [| | k m | k error | t | d]; simpl.
  - unfold openObserver, connectionStatus_next. now rewrite E.
  - unfold closeObserver. rewrite (cleanSocket_without_handle c Hk Hsock).
    unfold connectionStatus_next. now rewrite E.
  - now rewrite Hsock.
  - now rewrite Hsock.
  - now rewrite Hsess.
  - unfold send. now rewrite Hk.
Qed.

Lemma step_status_inv a c :
  session_inv c -> socket_inv c -> status_inv c -> status_inv (step a c).
Proof.
  intros Hsess Hsock Hst.
  destruct (stopped (_connectionStatus_dollar c)) as [| e |] eqn:E.
  - destruct a as [| | k m | k error | t | d]; simpl.
    + unfold status_inv, openObserver. rewrite connectionStatus_next_status.
      unfold Subject_next. rewrite E. exact I.
    + unfold status_inv, closeObserver.
      rewrite connectionStatus_next_status, cleanSocket_status.
      unfold Subject_next. rewrite E. exact I.
    + destruct (mem k (subscribed (runtime c))); unfold status_inv; simpl;
        rewrite E; exact I.
    + destruct (mem k (subscribed (runtime c)));
        [| unfold status_inv; rewrite E; exact I].
      unfold socket_error. simpl.
      destruct (is_none (_socket c)); unfold status_inv.
      * unfold _reconnect, _cleanReconnection. simpl.
        destruct (_reconnectionSubscription c); simpl; rewrite E; exact I.
      * simpl. rewrite E. exact I.
    + destruct (tick_index t (intervals (runtime c)));
        [| unfold status_inv; rewrite E; exact I].
      destruct (reconnection_continues n c);
        [unfold status_inv; simpl; rewrite E; exact I |].
      destruct (reconnection_complete_fields (set_runtime (unsubscribe_interval t) c))
        as (Ht & Hs & Hk & Ho & _).
      unfold status_inv. rewrite Hs, Hk, Ho, Ht. simpl.
      destruct (_socket c) eqn:Hsocket; simpl.
      * rewrite E. exact I.
      * unfold Subject_complete at 1. rewrite E. simpl.
        repeat split. apply subject_complete_not_active.
    + unfold send. destruct (_socket c); unfold status_inv; simpl;
        rewrite E; exact I.
  - unfold status_inv in Hst. rewrite E in Hst. contradiction.
  - now rewrite completed_channel_step.
Qed.

Lemma step_completion_inv a c :
  status_inv c -> completion_inv c -> completion_inv (step a c).
Proof.
  intros Hst Hc. unfold completion_inv in *.
  destruct (stopped (this_ c)) as [| e |] eqn:E.
  - destruct a as [| | k m | k error | t | d]; simpl.
    + unfold openObserver. rewrite connectionStatus_next_this, E. discriminate.
    + unfold closeObserver.
      rewrite connectionStatus_next_this, cleanSocket_this, E. discriminate.
    + destruct (mem k (subscribed (runtime c))); simpl;
        [unfold Subject_next | ]; rewrite E; discriminate.
    + destruct (mem k (subscribed (runtime c))); [| rewrite E; discriminate].
      unfold socket_error. simpl. destruct (is_none (_socket c)).
      * unfold _reconnect, _cleanReconnection. simpl.
        destruct (_reconnectionSubscription c); simpl; rewrite E; discriminate.
      * simpl. unfold Subject_error. rewrite E. discriminate.
    + destruct (tick_index t (intervals (runtime c))); [| rewrite E; discriminate].
      destruct (reconnection_continues n c); [simpl; rewrite E; discriminate |].
      destruct (reconnection_complete_fields (set_runtime (unsubscribe_interval t) c))
        as (Ht & Hs & _).
      rewrite Ht, Hs. simpl.
      destruct (is_none (_socket c)); [| rewrite E; discriminate].
      intros _. unfold status_inv in Hst. unfold Subject_complete.
      destruct (stopped (_connectionStatus_dollar c)) eqn:Es;
        [reflexivity | contradiction | exact Es].
    + unfold send. destruct (_socket c); simpl; rewrite E; discriminate.
  - destruct (step_keeps_ended_subject a c) as (_ & ->);
      [rewrite E; discriminate |].
    rewrite E. discriminate.
  - destruct (step_keeps_ended_subject a c) as (_ & ->);
      [rewrite E; discriminate |].
    intros _. rewrite step_keeps_ended_status; [exact (Hc eq_refl) |].
    rewrite (Hc eq_refl). discriminate.
Qed.

Lemma reachable_end_invs c :
  reachable c -> status_inv c /\ completion_inv c.
Proof.
  induction 1 as [a | a c Hr (IH1 & IH2)].
  - split; [exact I | discriminate].
  - split.
    + apply step_status_inv; auto using reachable_session_inv, reachable_socket_inv.
    + now apply step_completion_inv.
Qed.

(** The subscribers to come. Unless an error has replaced the one the
    subject ended with, a subscriber that comes after the end receives
    what [subscribe] gives to one that came after the last value. The
    status subject never holds an error, so whoever subscribes to it
    after its end receives [complete]. *)
Lemma subscribe_stopped_as_subscribe {A} (sj : Subject A) :
  thrownError sj = match stopped sj with Errored e => Some e | _ => None end ->
  subscribe_stopped sj = subscribe (List.length (emitted sj)) sj.
Proof.
  intros H. unfold subscribe_stopped, subscribe.
  rewrite skipn_all, H. destruct (stopped sj); reflexivity.
Qed.

Lemma subject_next_thrown {A} (v : A) (sj : Subject A) :
  thrownError (Subject_next v sj) = thrownError sj.
Proof. unfold Subject_next. destruct (stopped sj); reflexivity. Qed.

Lemma subject_complete_thrown {A} (sj : Subject A) :
  thrownError (Subject_complete sj) = thrownError sj.
Proof. unfold Subject_complete. destruct (stopped sj); reflexivity. Qed.

Lemma step_status_thrown a c :
  thrownError (_connectionStatus_dollar (step a c)) =
  thrownError (_connectionStatus_dollar c).
Proof.
  destruct a as [| | k m | k error | t | d].
  - change (step Opened c) with (connectionStatus_next true c).
    now rewrite connectionStatus_next_status, subject_next_thrown.
  - change (step Closed c) with (connectionStatus_next false (_cleanSocket c)).
    now rewrite connectionStatus_next_status, subject_next_thrown, cleanSocket_status.
  - simpl. destruct (mem k (subscribed (runtime c))); reflexivity.
  - simpl. destruct (mem k (subscribed (runtime c))); [| reflexivity].
    unfold socket_error. simpl.
    destruct (is_none (_socket c)); [| reflexivity].
    unfold _reconnect, _cleanReconnection. simpl.
    destruct (_reconnectionSubscription c); reflexivity.
  - simpl. destruct (tick_index t (intervals (runtime c))); [| reflexivity].
    destruct (reconnection_continues n c); [reflexivity |].
    destruct (reconnection_complete_fields (set_runtime (unsubscribe_interval t) c))
      as (_ & -> & _).
    simpl. destruct (is_none (_socket c)); [| reflexivity].
    apply subject_complete_thrown.
  - simpl. unfold send. destruct (_socket c); reflexivity.
Qed.

Lemma status_holds_no_error c :
  reachable c -> thrownError (_connectionStatus_dollar c) = None.
Proof.
  induction 1 as [a | a c Hr IH]; [reflexivity |].
  now rewrite step_status_thrown.
Qed.

Lemma status_subscribe_stopped c :
  reachable c ->
  subscribe_stopped (_connectionStatus_dollar c) =
  subscribe (List.length (emitted (_connectionStatus_dollar c)))
    (_connectionStatus_dollar c).
Proof.
  intros Hr. apply subscribe_stopped_as_subscribe.
  rewrite (status_holds_no_error c Hr).
  destruct (reachable_end_invs c Hr) as (Hst & _). unfold status_inv in Hst.
  destruct (stopped (_connectionStatus_dollar c)); [reflexivity | contradiction | reflexivity].
Qed.

(** X11. In every reachable state: the status subject has not failed;
    the subject has completed only if the status subject has completed;
    and once the status subject has completed there is no handle, no
    timer, no open subscription to a transport, and the subject has
    ended. A session runs only while the status subject is active. *)
Theorem status_completes_with_the_channel c :
  reachable c ->
  (forall e, stopped (_connectionStatus_dollar c) <> Errored e) /\
  (stopped (this_ c) = Completed ->
   stopped (_connectionStatus_dollar c) = Completed) /\
  (stopped (_connectionStatus_dollar c) = Completed ->
   _socket c = None /\ intervals (runtime c) = [] /\
   subscribed (runtime c) = [] /\ stopped (this_ c) <> Active) /\
  (_reconnectionObservable c <> None ->
   stopped (_connectionStatus_dollar c) = Active).
Proof.
  intros Hr.
  destruct (reachable_end_invs c Hr) as (Hst & Hc).
  pose proof (reachable_session_inv Hr) as Hsess.
  pose proof (reachable_socket_inv Hr) as Hsock.
  unfold status_inv in Hst. unfold session_inv in Hsess. unfold socket_inv in Hsock.
  repeat split.
  - intros e E. now rewrite E in Hst.
  - exact Hc.
  - rewrite H in Hst. apply Hst.
  - rewrite H in Hst. destruct Hst as (_ & Ho & _). now rewrite Ho in Hsess.
  - rewrite H in Hst. destruct Hst as (Hk & _). now rewrite Hk in Hsock.
  - rewrite H in Hst. apply Hst.
  - intros Ho. destruct (stopped (_connectionStatus_dollar c)); try reflexivity.
    + contradiction.
    + destruct Hst as (_ & Hnone & _). contradiction.
Qed.

Lemma status_completes_with_the_channel_witness :
  let c := run (Closed :: failed_attempts 2 1 ++ [Tick 1])
               (constructor two_attempts) in
  stopped (_connectionStatus_dollar c) = Completed /\
  _socket c = None /\ intervals (runtime c) = [] /\
  subscribed (runtime c) = [] /\ stopped (this_ c) <> Active.
Proof.
  assert (reachable (run (Closed :: failed_attempts 2 1 ++ [Tick 1])
                         (constructor two_attempts))) as Hr.
  { apply run_reachable. constructor. }
  destruct (status_completes_with_the_channel _ Hr) as (_ & Hboth & Hend & _).
  split; [apply Hboth; reflexivity | apply Hend; reflexivity].
Defined.

(** X12. A channel whose status subject has completed (its retries are
    used up) is inert: no notification of a transport, no tick and no
    [send] changes its state any more. *)
Theorem exhausted_channel_is_inert c l :
  reachable c ->
  stopped (_connectionStatus_dollar c) = Completed ->
  run l c = c.
Proof.
  intros Hr E. induction l as [| a l IH]; [reflexivity |].
  rewrite run_cons, completed_channel_step; auto.
  - now apply reachable_session_inv.
  - now apply reachable_socket_inv.
  - now apply reachable_end_invs.
Qed.

Lemma exhausted_channel_is_inert_witness :
  let c := run (Closed :: failed_attempts 2 1 ++ [Tick 1])
               (constructor two_attempts) in
  run [Opened; Received 3 (VStr "late"); Closed; Tick 1; Send (VStr "x")] c = c.
Proof.
  apply (exhausted_channel_is_inert
           (run (Closed :: failed_attempts 2 1 ++ [Tick 1])
                (constructor two_attempts))).
  - apply run_reachable. constructor.
  - reflexivity.
Defined.

(** ** Transports *)

(** X13. Only the current transport is heard. In every reachable state an
    open subscription is the subscription to the socket in [_socket], so
    a message or an error of any other socket (one that was cleaned, or
    replaced) changes nothing; and while the subject is active a message
    of the current transport is delivered to it. *)
Theorem only_the_current_transport_is_heard c k :
  reachable c ->
  (mem k (subscribed (runtime c)) = true -> _socket c = Some k) /\
  (_socket c <> Some k ->
   forall m error, step (Received k m) c = c /\ step (Failed k error) c = c) /\
  (mem k (subscribed (runtime c)) = true ->
   stopped (this_ c) = Active ->
   forall m, emitted (this_ (step (Received k m) c)) =
             (emitted (this_ c) ++ [m])%list).
Proof.
  intros Hr. pose proof (reachable_socket_inv Hr) as Hsock.
  split; [| split].
  - now apply subscribed_is_handle.
  - intros Hk m error.
    destruct (mem k (subscribed (runtime c))) eqn:Hm.
    + destruct Hk. now apply subscribed_is_handle.
    + simpl. now rewrite Hm.
  - intros Hm Ha m. simpl. rewrite Hm. unfold socket_message. simpl.
    unfold Subject_next. now rewrite Ha.
Qed.

Lemma only_the_current_transport_is_heard_witness :
  let c := run [Closed; Tick 1; Opened] (constructor two_attempts) in
  step (Received 0 (VStr "stale")) c = c /\
  emitted (this_ (step (Received 2 (VStr "fresh")) c)) = [VStr "fresh"].
Proof.
  assert (reachable (run [Closed; Tick 1; Opened] (constructor two_attempts)))
    as Hr by (apply run_reachable; constructor).
  destruct (only_the_current_transport_is_heard _ 0 Hr) as (_ & Hstale & _).
  destruct (only_the_current_transport_is_heard _ 2 Hr) as (_ & _ & Hfresh).
  assert (_socket (run [Closed; Tick 1; Opened] (constructor two_attempts))
          <> Some 0) as Hother by discriminate.
  destruct (Hstale Hother (VStr "stale") VUndefined) as (Hsame & _).
  split; [exact Hsame |].
  exact (Hfresh eq_refl eq_refl (VStr "fresh")).
Defined.

Lemma connectionStatus_next_created b c :
  created (runtime (connectionStatus_next b c)) = created (runtime c) /\
  outbox (runtime (connectionStatus_next b c)) = outbox (runtime c) /\
  _reconnectAttempts (connectionStatus_next b c) = _reconnectAttempts c /\
  _socket (connectionStatus_next b c) = _socket c.
Proof.
  unfold connectionStatus_next.
  destruct (stopped (_connectionStatus_dollar c));
    [| repeat split | repeat split].
  match goal with |- context [same_key ?k b] => destruct (same_key k b) end;
    [repeat split |].
  unfold status_subscriber.
  match goal with |- context [if ?x then _ else _] => destruct x end;
    repeat split.
Qed.

Lemma cleanSocket_created c :
  created (runtime (_cleanSocket c)) = created (runtime c) /\
  outbox (runtime (_cleanSocket c)) = outbox (runtime c) /\
  _reconnectAttempts (_cleanSocket c) = _reconnectAttempts c /\
  intervals (runtime (_cleanSocket c)) = intervals (runtime c).
Proof. unfold _cleanSocket. destruct (_socketSubscription c); repeat split. Qed.

(** X14. A transport is made only by the constructor and by a tick of a
    running timer that finds no handle and an index below
    [_reconnectAttempts]: every other action leaves the list of the
    sockets made as it is. So no second transport is made while one is
    held, and none on a close, an error, a message or a [send]. *)
Theorem transports_are_made_only_by_ticks a c :
  created (runtime (step a c)) = created (runtime c) \/
  exists t i,
    a = Tick t /\
    tick_index t (intervals (runtime c)) = Some i /\
    (Z.of_nat i < _reconnectAttempts c)%Z /\
    _socket c = None /\
    created (runtime (step a c)) = (created (runtime c) ++ [fresh (runtime c)])%list /\
    _socket (step a c) = Some (fresh (runtime c)).
Proof.
  destruct a as [| | k m | k error | t | d]; simpl.
  - left. apply connectionStatus_next_created.
  - left. unfold closeObserver.
    destruct (connectionStatus_next_created false (_cleanSocket c)) as (-> & _).
    apply cleanSocket_created.
  - left. destruct (mem k (subscribed (runtime c))); reflexivity.
  - left. destruct (mem k (subscribed (runtime c))); [| reflexivity].
    unfold socket_error. simpl. destruct (is_none (_socket c)); [| reflexivity].
    unfold _reconnect, _cleanReconnection. simpl.
    destruct (_reconnectionSubscription c); reflexivity.
  - destruct (tick_index t (intervals (runtime c))) as [i |] eqn:Hi; [| now left].
    destruct (reconnection_continues i c) eqn:Hc.
    + right. exists t, i.
      unfold reconnection_continues in Hc. apply andb_prop in Hc as (Hlt & Hn).
      apply Z.ltb_lt in Hlt.
      destruct (_socket c) eqn:Hs; [discriminate Hn |].
      repeat split; auto.
    + left.
      apply (reconnection_complete_fields (set_runtime (unsubscribe_interval t) c)).
  - left. unfold send. destruct (_socket c); reflexivity.
Qed.

(** ** Sessions *)

Lemma connectionStatus_next_starts b c :
  _reconnectionObservable c = None ->
  _reconnectionObservable (connectionStatus_next b c) = None \/
  (b = false /\
   stopped (_connectionStatus_dollar c) = Active /\
   status_key c <> Some false /\
   connectionStatus_next b c =
     _reconnect (set_status_key (Some false)
                   (set_connectionStatus (Subject_next false) c))).
Proof.
  intros Ho. unfold connectionStatus_next.
  destruct (stopped (_connectionStatus_dollar c)) eqn:E; [| now left | now left].
  cbv zeta.
  change (status_key (set_connectionStatus (Subject_next b) c))
    with (status_key c).
  destruct (same_key (status_key c) b) eqn:Hsame; [now left |].
  unfold status_subscriber.
  change (_reconnectionObservable
            (set_status_key (Some b) (set_connectionStatus (Subject_next b) c)))
    with (_reconnectionObservable c).
  rewrite Ho. destruct b; [now left |]. right.
  repeat split; try reflexivity.
  intros Hk. rewrite Hk in Hsame. discriminate Hsame.
Qed.

(** X15. A session starts only at a close notification, when the status
    subject is active and the status the constructor's subscriber saw
    last is not [false]; it then starts at tick 0. No open notification,
    message, error, tick or [send] starts one, and neither does a close
    notification that repeats [false]. *)
Theorem sessions_start_only_on_close a c t :
  reachable c ->
  _reconnectionObservable c = None ->
  _reconnectionObservable (step a c) = Some t ->
  a = Closed /\
  stopped (_connectionStatus_dollar c) = Active /\
  status_key c <> Some false /\
  t = fresh (runtime c) /\
  intervals (runtime (step a c)) = [(t, 0)] /\
  _socket (step a c) = None.
Proof.
  intros Hr Ho Hnew.
  pose proof (reachable_socket_inv Hr) as Hsock.
  pose proof (reachable_session_inv Hr) as Hsess.
  unfold session_inv in Hsess. rewrite Ho in Hsess.
  destruct a as [| | k m | k error | t' | d]; simpl in Hnew.
  - exfalso. unfold openObserver in Hnew.
    destruct (connectionStatus_next_starts true c Ho) as [H | (H & _)];
      [rewrite H in Hnew |]; discriminate.
  - split; [reflexivity |].
    unfold closeObserver in Hnew. simpl step. unfold closeObserver.
    assert (_reconnectionObservable (_cleanSocket c) = None) as Ho'.
    { unfold _cleanSocket. destruct (_socketSubscription c); exact Ho. }
    assert (status_key (_cleanSocket c) = status_key c) as Hkey.
    { unfold _cleanSocket. destruct (_socketSubscription c); reflexivity. }
    assert (intervals (runtime (_cleanSocket c)) = []) as Hint.
    { destruct (cleanSocket_created c) as (_ & _ & _ & ->). exact Hsess. }
    assert (fresh (runtime (_cleanSocket c)) = fresh (runtime c)) as Hfresh.
    { unfold _cleanSocket. destruct (_socketSubscription c); reflexivity. }
    assert (_socket (_cleanSocket c) = None) as Hnone.
    { unfold _cleanSocket. destruct (_socketSubscription c); reflexivity. }
    destruct (connectionStatus_next_starts false (_cleanSocket c) Ho')
      as [H | (_ & Hactive & Hk & Heq)].
    + rewrite H in Hnew. discriminate.
    + rewrite cleanSocket_status in Hactive. rewrite Hkey in Hk.
      rewrite Heq in *. unfold _reconnect in *. simpl in *.
      rewrite Hfresh in *. injection Hnew as <-.
      rewrite Hint. auto.
  - exfalso. destruct (mem k (subscribed (runtime c))); simpl in Hnew;
      rewrite Ho in Hnew; discriminate.
  - exfalso. destruct (mem k (subscribed (runtime c))) eqn:Hk;
      [| rewrite Ho in Hnew; discriminate].
    pose proof (@subscribed_is_handle c k Hsock Hk) as Hs.
    unfold socket_error in Hnew. simpl in Hnew. rewrite Hs in Hnew.
    simpl in Hnew. rewrite Ho in Hnew. discriminate.
  - exfalso. rewrite Hsess in Hnew. simpl in Hnew. rewrite Ho in Hnew. discriminate.
  - exfalso. unfold send in Hnew. destruct (_socket c); simpl in Hnew;
      rewrite Ho in Hnew; discriminate.
Qed.

Lemma sessions_start_only_on_close_witness :
  let c := step Opened (constructor two_attempts) in
  intervals (runtime (step Closed c)) = [(1, 0)] /\
  _socket (step Closed c) = None.
Proof.
  destruct (sessions_start_only_on_close Closed
              (step Opened (constructor two_attempts)) 1)
    as (_ & _ & _ & _ & Hint & Hnone).
  - apply run_reachable with (l := [Opened]). constructor.
  - reflexivity.
  - reflexivity.
  - split; [exact Hint | exact Hnone].
Defined.

Lemma connecting_tick c t i :
  session_at c t i ->
  (Z.of_nat i < _reconnectAttempts c)%Z ->
  let c1 := step (Tick t) c in
  c1 = _connect (set_runtime (advance t) c) /\
  _socket c1 = Some (fresh (runtime c)) /\
  _reconnectionObservable c1 = Some t /\
  _reconnectionSubscription c1 = Some t /\
  intervals (runtime c1) = [(t, S i)] /\
  this_ c1 = this_ c /\
  _connectionStatus_dollar c1 = _connectionStatus_dollar c /\
  _reconnectAttempts c1 = _reconnectAttempts c /\
  created (runtime c1) = (created (runtime c) ++ [fresh (runtime c)])%list /\
  outbox (runtime c1) = outbox (runtime c).
Proof.
  intros (Ho & Hs & Hi & Hk) Hlt.
  assert (step (Tick t) c = _connect (set_runtime (advance t) c)) as Htick.
  { apply tick_continues with (i := i).
    - rewrite Hi. simpl. now rewrite Nat.eqb_refl.
    - unfold reconnection_continues. rewrite Hk.
      apply Z.ltb_lt in Hlt. now rewrite Hlt. }
  cbv zeta. rewrite Htick. unfold _connect. simpl. rewrite Hi. simpl.
  rewrite Nat.eqb_refl. repeat split; assumption.
Qed.

Lemma reconnection_complete_intervals c :
  intervals (runtime c) = [] ->
  intervals (runtime (reconnection_complete c)) = [].
Proof.
  intros H. unfold reconnection_complete, _cleanReconnection.
  destruct (_reconnectionSubscription c); simpl;
    destruct (_socket c); simpl; rewrite H; reflexivity.
Qed.

(** X16. A reconnect that takes hold. When a tick of the session makes a
    transport and that transport opens, the next tick ends the session
    without completing anything: the channel holds the new transport,
    the subject is untouched and still active, a subscriber of the status
    stream receives [true] (unless [true] is what it received last), and
    [send] hands its data to the new socket. *)
Theorem reconnect_that_opens_keeps_the_channel c t i k :
  session_at c t i ->
  (Z.of_nat i < _reconnectAttempts c)%Z ->
  stopped (_connectionStatus_dollar c) = Active ->
  k <= List.length (emitted (_connectionStatus_dollar c)) ->
  let c' := run [Tick t; Opened; Tick t] c in
  _socket c' = Some (fresh (runtime c)) /\
  _reconnectionObservable c' = None /\
  intervals (runtime c') = [] /\
  this_ c' = this_ c /\
  stopped (_connectionStatus_dollar c') = Active /\
  connectionStatus_dollar k c' =
    (connectionStatus_dollar k c ++
     (if same_key (last_value (values (connectionStatus_dollar k c))) true
      then [] else [Next true]))%list /\
  created (runtime c') = (created (runtime c) ++ [fresh (runtime c)])%list /\
  forall d, exists c'',
      send d c' = Ok c'' /\
      outbox (runtime c'') = (outbox (runtime c) ++ [(fresh (runtime c), d)])%list.
Proof.
  intros Hat Hlt Hactive Hk.
  destruct (connecting_tick c t i Hat Hlt)
    as (_ & Hs1 & Ho1 & Hsub1 & Hi1 & Ht1 & Hst1 & Hatt1 & Hcr1 & Hout1).
  cbv zeta. unfold run. cbn [fold_left].
  set (c1 := step (Tick t) c) in *.
  change (step Opened c1) with (connectionStatus_next true c1).
  destruct (@connectionStatus_next_in_session true c1 t Ho1)
    as (Ht2 & Ho2 & Hs2 & _ & Hsub2 & Hatt2 & Hrun2 & Hstop2).
  pose proof (connectionStatus_next_status true c1) as Hst2.
  set (c2 := connectionStatus_next true c1) in *.
  assert (step (Tick t) c2 =
          reconnection_complete (set_runtime (unsubscribe_interval t) c2)) as Htick.
  { apply tick_stops with (i := S i).
    - rewrite Hrun2, Hi1. simpl. now rewrite Nat.eqb_refl.
    - unfold reconnection_continues. rewrite Hs2, Hs1. apply andb_false_r. }
  rewrite Htick.
  destruct (reconnection_complete_fields (set_runtime (unsubscribe_interval t) c2))
    as (Ht3 & Hst3 & Hs3 & Ho3 & _ & Hcr3 & Hout3 & _).
  assert (_socket (set_runtime (unsubscribe_interval t) c2)
          = Some (fresh (runtime c))) as Hsx by (simpl; now rewrite Hs2).
  rewrite Hsx in Ht3, Hst3, Hs3. simpl in Ht3, Hst3, Hcr3, Hout3.
  assert (_connectionStatus_dollar c2 = Subject_next true (_connectionStatus_dollar c))
    as Hstatus by (rewrite Hst2; now rewrite Hst1).
  repeat split.
  - exact Hs3.
  - exact Ho3.
  - apply reconnection_complete_intervals. simpl. rewrite Hrun2, Hi1.
    simpl. now rewrite Nat.eqb_refl.
  - now rewrite Ht3, Ht2.
  - rewrite Hst3, Hstatus. unfold Subject_next. now rewrite Hactive.
  - unfold connectionStatus_dollar. rewrite Hst3, Hstatus.
    now apply status_value_delivered.
  - now rewrite Hcr3, Hrun2.
  - intros d. unfold send. rewrite Hs3. eexists. split; [reflexivity |].
    simpl. now rewrite Hout3, Hrun2, Hout1.
Qed.

Lemma reconnect_that_opens_keeps_the_channel_witness :
  let c := step Closed (step Opened (constructor two_attempts)) in
  let c' := run [Tick 1; Opened; Tick 1] c in
  _socket c' = Some 2 /\
  intervals (runtime c') = [] /\
  stopped (this_ c') = Active /\
  connectionStatus_dollar 0 c' = [Next true; Next false; Next true].
Proof.
  destruct (reconnect_that_opens_keeps_the_channel
              (step Closed (step Opened (constructor two_attempts))) 1 0 0)
    as (Hsock & _ & Hint & Hthis & _ & Hstatus & _).
  - repeat split.
  - reflexivity.
  - reflexivity.
  - simpl. lia.
  - split; [exact Hsock |]. split; [exact Hint |].
    split; [now rewrite Hthis | exact Hstatus].
Defined.

(** X18. Data leaves the channel in [send] only, at once and to the handle
    of that moment: no action other than a [send] with a handle adds to
    what the sockets were given, so nothing is kept for later or given
    again after a reconnect. *)
Theorem data_leaves_only_by_send a c :
  outbox (runtime (step a c)) = outbox (runtime c) \/
  exists d k,
    a = Send d /\
    _socket c = Some k /\
    outbox (runtime (step a c)) = (outbox (runtime c) ++ [(k, d)])%list.
Proof.
  destruct a as [| | k m | k error | t | d]; simpl.
  - left. apply connectionStatus_next_created.
  - left. unfold closeObserver.
    destruct (connectionStatus_next_created false (_cleanSocket c)) as (_ & -> & _).
    apply cleanSocket_created.
  - left. destruct (mem k (subscribed (runtime c))); reflexivity.
  - left. destruct (mem k (subscribed (runtime c))); [| reflexivity].
    unfold socket_error. simpl. destruct (is_none (_socket c)); [| reflexivity].
    unfold _reconnect, _cleanReconnection. simpl.
    destruct (_reconnectionSubscription c); reflexivity.
  - left. destruct (tick_index t (intervals (runtime c))) as [i |]; [| reflexivity].
    destruct (reconnection_continues i c); [reflexivity |].
    destruct (reconnection_complete_fields (set_runtime (unsubscribe_interval t) c))
      as (_ & _ & _ & _ & _ & _ & -> & _).
    reflexivity.
  - unfold send. destruct (_socket c) as [k |]; [| now left].
    right. exists d, k. repeat split.
Qed.

Lemma received_fields k ms : forall c,
  mem k (subscribed (runtime c)) = true ->
  stopped (this_ c) = Active ->
  let c' := run (received k ms) c in
  emitted (this_ c') = (emitted (this_ c) ++ ms)%list /\
  stopped (this_ c') = Active /\
  runtime c' = runtime c /\
  _socket c' = _socket c /\
  _connectionStatus_dollar c' = _connectionStatus_dollar c /\
  _reconnectionObservable c' = _reconnectionObservable c.
Proof.
  induction ms as [| m ms IH]; intros c Hk Hactive.
  - simpl. rewrite app_nil_r. repeat split. exact Hactive.
  - change (run (received k (m :: ms)) c)
      with (run (received k ms) (step (Received k m) c)).
    assert (step (Received k m) c = set_this (Subject_next m) c) as Hstep
      by (simpl; now rewrite Hk).
    rewrite Hstep.
    destruct (IH (set_this (Subject_next m) c)) as (He & Hs & Hr & Hsock & Hst & Ho).
    + exact Hk.
    + simpl. unfold Subject_next. now rewrite Hactive.
    + cbv zeta. rewrite He, Hs, Hr, Hsock, Hst, Ho. simpl.
      unfold Subject_next. rewrite Hactive. simpl.
      rewrite <- app_assoc. repeat split.
Qed.

(** X19. The messages of the current transport reach a subscriber of the
    channel in the order the transport delivered them, each once and with
    nothing between them; they move neither the handle nor the status. *)
Theorem messages_arrive_in_transport_order c k ms j :
  mem k (subscribed (runtime c)) = true ->
  stopped (this_ c) = Active ->
  j <= List.length (emitted (this_ c)) ->
  let c' := run (received k ms) c in
  Rx.subscribe j (this_ c') = (Rx.subscribe j (this_ c) ++ List.map Next ms)%list /\
  _socket c' = _socket c /\
  _connectionStatus_dollar c' = _connectionStatus_dollar c.
Proof.
  intros Hk Hactive Hj.
  destruct (received_fields k ms c Hk Hactive) as (He & Hs & _ & Hsock & Hst & _).
  cbv zeta. split; [| split; assumption].
  unfold Rx.subscribe. rewrite He, Hs, Hactive. simpl. rewrite !app_nil_r.
  rewrite skipn_app, List.map_app.
  replace (j - List.length (emitted (this_ c))) with 0 by lia.
  reflexivity.
Qed.

Lemma messages_arrive_in_transport_order_witness :
  let c := step Opened (constructor two_attempts) in
  let c' := run [Received 0 (VStr "a"); Received 0 (VStr "b"); Received 0 (VStr "a")] c in
  Rx.subscribe 0 (this_ c') = [Next (VStr "a"); Next (VStr "b"); Next (VStr "a")].
Proof.
  destruct (messages_arrive_in_transport_order
              (step Opened (constructor two_attempts)) 0
              [VStr "a"; VStr "b"; VStr "a"] 0) as (Hsub & _).
  - reflexivity.
  - reflexivity.
  - simpl. lia.
  - exact Hsub.
Defined.
